(** * stream-chat-backend: the aggregation server of [src/server.js]

    A shallow embedding of the session logic of [server.js]: the four
    module-level state variables, the Twitch message callback, the two
    YouTube functions and the socket handlers, followed by the properties
    of the specification that concern them.

    A handler is modelled as one computation in a small state-and-log
    monad.  The value an awaited call of an external client resolves to
    (the YouTube API, the clock) is carried by the event that triggers
    the handler, and a handler is taken to run as a whole: no other
    callback is interleaved while it awaits.  The code that follows the
    await of [fetchYoutubeMessages] is kept as a function of its own,
    [on_list_result], and is synchronous in the source.  Calls made on
    the external clients and on the socket hub are recorded, in program
    order, in the log; [console] output is left out.

    Three facts about the libraries around the file are part of the
    model, since the code depends on them: tmi.js sets the [self]
    argument of the message callback only for the echo of a message the
    client itself sends; socket.io runs the ['disconnect'] handler after
    the engine has counted the connection out when the transport closes,
    but before that when the client disconnects its socket itself; and
    the timer drops the promise [fetchYoutubeMessages] returns. *)

From Stdlib Require Import ZArith.
From stdpp Require Import base decidable option list strings gmap.

Local Open Scope string_scope.
Local Open Scope list_scope.
Local Open Scope Z_scope.

(** ** Data *)

Inductive Platform := Twitch | YouTube.

(** The object literal built at lines 48-55 and 101-107.  The YouTube
    literal has no [color] property. *)
Record ChatMessage := {
  msg_id : string;
  platform : Platform;
  user : string;
  text : string;
  isSubscriber : bool;
  color : option string
}.

(** The [tags] argument of tmi.js' message callback: the properties the
    callback reads, and [username], the login name of the author, which
    tmi.js sets on every chat message and the callback never reads. *)
Record Tags := {
  username : string;
  tag_id : string;
  display_name : string;
  subscriber : bool;
  mod_ : bool;
  tag_color : option string
}.

(** One element of [response.data.items] of [liveChatMessages.list].
    [publishedAt] is the time value, in milliseconds, of
    [new Date(item.snippet.publishedAt)]; the API delivers an ISO 8601
    datetime there, and two [Date]s compared with [>] are compared by
    their time values. *)
Record LiveChatMessage := {
  item_id : string;
  publishedAt : Z;
  displayName : string;
  displayMessage : string;
  isChatSponsor : bool
}.

(** The payload of a ['start connection'] request. *)
Record StartData := {
  data_twitchChannel : option string;
  data_youtubeChannelId : option string
}.

(** What [youtube.videos.list] does at lines 71-75: it throws (also when
    the property chain of line 75 hits [undefined]), or line 75 evaluates
    to [activeLiveChatId], which may be absent. *)
Inductive VideosResult :=
  | VideosThrows
  | VideosDetails (activeLiveChatId : option string).

(** What the two calls of [getLiveChatId] resolve to: [search_items] is
    [None] when [youtube.search.list] throws and otherwise the [videoId]s
    of [response.data.items]. *)
Record ResolveResult := {
  search_items : option (list string);
  videos_result : VideosResult
}.

(** What [youtube.liveChatMessages.list] resolves to: the items; or an
    error, with [error.response.data.error.message] when the error
    carries a response; or an error whose response has no such message
    (a body that is no JSON error object), on which reading
    [error.response.data.error.message] throws. *)
Inductive ListResult :=
  | ListItems (items : list LiveChatMessage)
  | ListThrows (response_message : option string)
  | ListThrowsUnreadable.

(** How the promise of an [async] function settles. *)
Inductive Settled := Fulfilled | Rejected.

(** The calls the server makes on its collaborators. *)
Inductive Action :=
  | IoEmitChat (m : ChatMessage)
  | IoEmitError (notice : string)
  | TwitchConnect
  | TwitchJoin (channel : string)
  | TwitchPart (channel : string)
  | YoutubeSearchList (channelId : string)
  | YoutubeVideosList (videoId : string)
  | YoutubeLiveChatMessagesList (liveChatId : string)
  | SetInterval (handle : nat)
  | ClearInterval (handle : nat).

(** ** State

    The first four fields are the variables of lines 31-34.  The other
    three belong to the runtime: [io.engine.clientsCount], the intervals
    that are armed, and the next handle [setInterval] hands out. *)
Record Server := {
  twitchChannel : option string;
  youtubeLiveChatId : option string;
  youtubeInterval : option nat;
  lastYoutubeCheck : option Z;
  clientsCount : nat;
  timers : gset nat;
  nextTimer : nat
}.

Definition init : Server :=
  {| twitchChannel := None; youtubeLiveChatId := None;
     youtubeInterval := None; lastYoutubeCheck := None;
     clientsCount := 0; timers := ∅; nextTimer := 0 |}.

Definition set_twitchChannel (v : option string) (s : Server) : Server :=
  {| twitchChannel := v; youtubeLiveChatId := youtubeLiveChatId s;
     youtubeInterval := youtubeInterval s; lastYoutubeCheck := lastYoutubeCheck s;
     clientsCount := clientsCount s; timers := timers s; nextTimer := nextTimer s |}.

Definition set_youtubeLiveChatId (v : option string) (s : Server) : Server :=
  {| twitchChannel := twitchChannel s; youtubeLiveChatId := v;
     youtubeInterval := youtubeInterval s; lastYoutubeCheck := lastYoutubeCheck s;
     clientsCount := clientsCount s; timers := timers s; nextTimer := nextTimer s |}.

Definition set_youtubeInterval (v : option nat) (s : Server) : Server :=
  {| twitchChannel := twitchChannel s; youtubeLiveChatId := youtubeLiveChatId s;
     youtubeInterval := v; lastYoutubeCheck := lastYoutubeCheck s;
     clientsCount := clientsCount s; timers := timers s; nextTimer := nextTimer s |}.

Definition set_lastYoutubeCheck (v : option Z) (s : Server) : Server :=
  {| twitchChannel := twitchChannel s; youtubeLiveChatId := youtubeLiveChatId s;
     youtubeInterval := youtubeInterval s; lastYoutubeCheck := v;
     clientsCount := clientsCount s; timers := timers s; nextTimer := nextTimer s |}.

Definition set_clientsCount (v : nat) (s : Server) : Server :=
  {| twitchChannel := twitchChannel s; youtubeLiveChatId := youtubeLiveChatId s;
     youtubeInterval := youtubeInterval s; lastYoutubeCheck := lastYoutubeCheck s;
     clientsCount := v; timers := timers s; nextTimer := nextTimer s |}.

(** ** The monad of handlers: state and a log of actions *)

Definition M (A : Type) : Type := Server → A * Server * list Action.

Definition ret {A} (a : A) : M A := λ s, (a, s, []).

Definition bind {A B} (m : M A) (k : A → M B) : M B :=
  λ s, let r := m s in
       let q := k r.1.1 r.1.2 in
       (q.1.1, q.1.2, r.2 ++ q.2).

Definition get {A} (f : Server → A) : M A := λ s, (f s, s, []).
Definition modify (f : Server → Server) : M unit := λ s, (tt, f s, []).
Definition perform (a : Action) : M unit := λ s, (tt, s, [a]).

Notation "x ← m ; k" := (bind m (λ x, k))
  (at level 20, m at level 100, k at level 200, only parsing, right associativity).
Notation "m ;; k" := (bind m (λ _, k))
  (at level 100, k at level 200, right associativity).

(** [array.forEach(callback)] *)
Fixpoint forEach {A} (l : list A) (callback : A → M unit) : M unit :=
  match l with
  | [] => ret tt
  | x :: rest => callback x ;; forEach rest callback
  end.

(** The state a computation ends in and the actions it performed. *)
Definition state_after {A} (m : M A) (s : Server) : Server := (m s).1.2.
Definition actions_of {A} (m : M A) (s : Server) : list Action := (m s).2.
Definition result_of {A} (m : M A) (s : Server) : A := (m s).1.1.

(** ** JavaScript helpers *)

(** Truthiness of a value that is [null], [undefined] or a string: the
    string when it is truthy. *)
Definition truthy (v : option string) : option string :=
  match v with
  | Some c => if String.eqb c "" then None else Some c
  | None => None
  end.

(** [s.includes(pattern)] *)
Definition includes (s pattern : string) : bool :=
  match String.index 0 pattern s with
  | Some _ => true
  | None => false
  end.

(** [setInterval(fetchYoutubeMessages, 10000)]: arms a fresh interval and
    returns its handle. *)
Definition setInterval : M nat :=
  λ s, let t := nextTimer s in
       (t,
        {| twitchChannel := twitchChannel s; youtubeLiveChatId := youtubeLiveChatId s;
           youtubeInterval := youtubeInterval s; lastYoutubeCheck := lastYoutubeCheck s;
           clientsCount := clientsCount s; timers := {[t]} ∪ timers s;
           nextTimer := S t |},
        [SetInterval t]).

(** [clearInterval(h)]: disarms the interval; nothing happens for [null]
    or for a handle that is no longer armed. *)
Definition clearInterval (h : option nat) : M unit :=
  match h with
  | None => ret tt
  | Some t =>
      λ s, (tt,
            {| twitchChannel := twitchChannel s; youtubeLiveChatId := youtubeLiveChatId s;
               youtubeInterval := youtubeInterval s; lastYoutubeCheck := lastYoutubeCheck s;
               clientsCount := clientsCount s; timers := timers s ∖ {[t]};
               nextTimer := nextTimer s |},
            [ClearInterval t])
  end.

(** ** The Twitch callback (lines 45-57) *)

Definition twitchChatMessage (tags : Tags) (message : string) : ChatMessage :=
  {| msg_id := tag_id tags; platform := Twitch; user := display_name tags;
     text := message; isSubscriber := subscriber tags || mod_ tags;
     color := tag_color tags |}.

Definition on_twitch_message
    (channel : string) (tags : Tags) (message : string) (self : bool) : M unit :=
  if self then ret tt
  else perform (IoEmitChat (twitchChatMessage tags message)).

(** ** The YouTube functions (lines 60-125) *)

Definition not_found_notice : string :=
  "Could not find an active YouTube live stream for that channel.".

Definition chat_ended_notice : string := "YouTube Live Chat has ended.".

Definition getLiveChatId (youtubeChannelId : string) (api : ResolveResult)
    : M (option string) :=
  perform (YoutubeSearchList youtubeChannelId) ;;
  match search_items api with
  | None => perform (IoEmitError not_found_notice) ;; ret None
  | Some [] => ret None
  | Some (liveVideoId :: _) =>
      perform (YoutubeVideosList liveVideoId) ;;
      match videos_result api with
      | VideosThrows => perform (IoEmitError not_found_notice) ;; ret None
      | VideosDetails activeLiveChatId => ret activeLiveChatId
      end
  end.

Definition youtubeChatMessage (item : LiveChatMessage) : ChatMessage :=
  {| msg_id := item_id item; platform := YouTube; user := displayName item;
     text := displayMessage item; isSubscriber := isChatSponsor item;
     color := None |}.

(** The test of line 100: [!lastYoutubeCheck || publishedAt > lastYoutubeCheck].
    A [Date] object is truthy. *)
Definition is_new (last : option Z) (published : Z) : bool :=
  match last with
  | None => true
  | Some w => bool_decide (w < published)
  end.

(** The callback of lines 97-110. *)
Definition forward_item (item : LiveChatMessage) : M unit :=
  last ← get lastYoutubeCheck;
  if is_new last (publishedAt item)
  then perform (IoEmitChat (youtubeChatMessage item))
  else ret tt.

(** The test of line 118. *)
Definition chat_has_ended (response_message : option string) : bool :=
  match response_message with
  | Some m => includes m "The live chat is no longer available"
  | None => false
  end.

(** Lines 95-124: what [fetchYoutubeMessages] does once the awaited
    [liveChatMessages.list] has settled, and how its own promise settles.
    The test of line 118 sits in the [catch] block: when it throws,
    nothing catches it and the promise is rejected. *)
Definition on_list_result (r : ListResult) : M Settled :=
  match r with
  | ListItems newMessages =>
      (if bool_decide (0 < length newMessages)%nat then
         forEach newMessages forward_item ;;
         match last newMessages with
         | Some item => modify (set_lastYoutubeCheck (Some (publishedAt item)))
         | None => ret tt
         end
       else ret tt) ;;
      ret Fulfilled
  | ListThrows response_message =>
      (if chat_has_ended response_message then
         h ← get youtubeInterval;
         clearInterval h ;;
         modify (set_youtubeLiveChatId None) ;;
         perform (IoEmitError chat_ended_notice)
       else ret tt) ;;
      ret Fulfilled
  | ListThrowsUnreadable => ret Rejected
  end.

Definition fetchYoutubeMessages (r : ListResult) : M Settled :=
  chat ← get youtubeLiveChatId;
  match truthy chat with
  | None => ret Fulfilled
  | Some liveChatId =>
      perform (YoutubeLiveChatMessagesList liveChatId) ;;
      on_list_result r
  end.

(** What the timer does when an interval fires: it calls the function
    and drops the promise it returns. *)
Definition tick (r : ListResult) : M unit :=
  fetchYoutubeMessages r ;; ret tt.

(** ** The socket handlers (lines 129-172) *)

(** ['start connection']: [now] is the value of [new Date()] at line 145
    and [api] what the calls of [getLiveChatId] resolve to. *)
Definition start_connection (data : StartData) (now : Z) (api : ResolveResult)
    : M unit :=
  match truthy (data_twitchChannel data) with
  | Some c =>
      modify (set_twitchChannel (Some c)) ;;
      perform TwitchConnect ;;
      perform (TwitchJoin c)
  | None => ret tt
  end ;;
  match truthy (data_youtubeChannelId data) with
  | Some channelId =>
      modify (set_lastYoutubeCheck (Some now)) ;;
      chat ← getLiveChatId channelId api;
      modify (set_youtubeLiveChatId chat) ;;
      match truthy chat with
      | Some _ =>
          h ← setInterval;
          modify (set_youtubeInterval (Some h))
      | None => ret tt
      end
  | None => ret tt
  end.

(** ['disconnect'], run after the engine has taken the socket off its
    count. *)
Definition on_disconnect : M unit :=
  n ← get clientsCount;
  if bool_decide (n = 0%nat) then
    (c ← get twitchChannel;
     match truthy c with
     | Some channel =>
         perform (TwitchPart channel) ;;
         modify (set_twitchChannel None)
     | None => ret tt
     end) ;;
    (h ← get youtubeInterval;
     match h with
     | Some _ =>
         clearInterval h ;;
         modify (set_youtubeInterval None) ;;
         modify (set_youtubeLiveChatId None)
     | None => ret tt
     end)
  else ret tt.

(** ** The event loop *)

Inductive Event :=
  | Connection
  | StartConnection (data : StartData) (now : Z) (api : ResolveResult)
  | TwitchMessage (channel : string) (tags : Tags) (message : string) (self : bool)
  | IntervalFires (handle : nat) (r : ListResult)
  | Disconnect
  | ClientDisconnect
  | EngineClose.

(** An interval that is not armed does not fire, and there is no socket
    to disconnect when none is connected: both are steps that do
    nothing.  The engine counts a connection in when it is made.  A
    socket goes in one of two ways.  [Disconnect]: its transport closes;
    the engine counts the connection out and then the ['disconnect']
    handler runs.  [ClientDisconnect]: the client disconnects the socket
    itself; the handler runs at once, while the engine still counts the
    connection, and only later the transport closes and the engine counts
    it out, with no handler left to run: [EngineClose].  The event loop
    does not keep track of which connections still have a socket; it
    admits these events in every order. *)
Definition handle (e : Event) : M unit :=
  match e with
  | Connection =>
      n ← get clientsCount;
      modify (set_clientsCount (S n))
  | StartConnection data now api => start_connection data now api
  | TwitchMessage channel tags message self =>
      on_twitch_message channel tags message self
  | IntervalFires t r =>
      armed ← get (λ s, bool_decide (t ∈ timers s));
      if armed then tick r else ret tt
  | Disconnect =>
      n ← get clientsCount;
      match n with
      | O => ret tt
      | S k => modify (set_clientsCount k) ;; on_disconnect
      end
  | ClientDisconnect =>
      n ← get clientsCount;
      match n with
      | O => ret tt
      | S _ => on_disconnect
      end
  | EngineClose =>
      n ← get clientsCount;
      match n with
      | O => ret tt
      | S k => modify (set_clientsCount k)
      end
  end.

(** A chat message that arrives from the Twitch server, whoever wrote
    it: tmi.js calls the callback with [self] false. *)
Definition inbound_message (channel : string) (tags : Tags) (message : string)
    : Event :=
  TwitchMessage channel tags message false.

Definition run (events : list Event) : M unit := forEach events handle.

(** The states the server can be in. *)
Definition reachable (s : Server) : Prop :=
  ∃ events, state_after (run events) init = s.

(** ** Reading the log *)

(** The chat messages broadcast by a run of actions, in order. *)
Definition chat_messages (log : list Action) : list ChatMessage :=
  omap (λ a, match a with IoEmitChat m => Some m | _ => None end) log.

(** The notices broadcast by a run of actions, in order. *)
Definition notices (log : list Action) : list string :=
  omap (λ a, match a with IoEmitError n => Some n | _ => None end) log.

(** The feeds polled by a run of actions. *)
Definition polled_feeds (log : list Action) : list string :=
  omap (λ a, match a with YoutubeLiveChatMessagesList c => Some c | _ => None end) log.

(** The events of a sequence of polls. *)
Definition polls (l : list (nat * ListResult)) : list Event :=
  (λ p, IntervalFires p.1 p.2) <$> l.

(** A start request that names a pull channel. *)
Definition names_pull_channel (e : Event) : Prop :=
  match e with
  | StartConnection data _ _ => is_Some (truthy (data_youtubeChannelId data))
  | _ => False
  end.

(** Order on watermarks; an absent watermark is below every other. *)
Definition watermark_le (a b : option Z) : Prop :=
  match a, b with
  | None, _ => True
  | Some _, None => False
  | Some x, Some y => x ≤ y
  end.

Definition watermark_lt (a b : option Z) : Prop :=
  match a, b with
  | None, Some _ => True
  | _, None => False
  | Some x, Some y => x < y
  end.

(** A poll result whose batch, when it has items, ends at or after the
    watermark [w]. *)
Definition ends_at_or_after (w : option Z) (r : ListResult) : Prop :=
  match r with
  | ListItems items =>
      match last items with
      | Some item => watermark_le w (Some (publishedAt item))
      | None => True
      end
  | ListThrows _ => True
  | ListThrowsUnreadable => True
  end.

(** A sequence of polls each of which ends at or after the watermark held
    when it is made. *)
Fixpoint batches_keep_up (s : Server) (l : list (nat * ListResult)) : Prop :=
  match l with
  | [] => True
  | p :: rest =>
      ends_at_or_after (lastYoutubeCheck s) p.2 ∧
      batches_keep_up (state_after (handle (IntervalFires p.1 p.2)) s) rest
  end.

(** Every variable of lines 31-34 is [null]. *)
Definition session_empty (s : Server) : Prop :=
  twitchChannel s = None ∧ youtubeLiveChatId s = None ∧
  youtubeInterval s = None ∧ lastYoutubeCheck s = None.

(** The four session variables of a state, without the runtime's part. *)
Definition session (s : Server)
    : option string * option string * option nat * option Z :=
  (twitchChannel s, youtubeLiveChatId s, youtubeInterval s, lastYoutubeCheck s).

(** What holds in every state the server reaches: a feed is polled only
    with a watermark and an interval handle in place, and the stored
    Twitch channel is a truthy string. *)
Record invariant (s : Server) : Prop := {
  inv_watermark : is_Some (truthy (youtubeLiveChatId s)) → is_Some (lastYoutubeCheck s);
  inv_interval : is_Some (truthy (youtubeLiveChatId s)) → is_Some (youtubeInterval s);
  inv_twitch : ∀ c, twitchChannel s = Some c → truthy (Some c) = Some c
}.

(** ** Sample data for the scenarios *)

Module Scenario.
Definition message (name : string) (published : Z) : LiveChatMessage :=
  {| item_id := name; publishedAt := published; displayName := "viewer";
     displayMessage := "hello"; isChatSponsor := false |}.

Definition pull_only (channelId : string) : StartData :=
  {| data_twitchChannel := None; data_youtubeChannelId := Some channelId |}.

Definition push_only (channel : string) : StartData :=
  {| data_twitchChannel := Some channel; data_youtubeChannelId := None |}.

Definition feed_found (liveChatId : string) : ResolveResult :=
  {| search_items := Some ["video"];
     videos_result := VideosDetails (Some liveChatId) |}.

Definition nothing_live : ResolveResult :=
  {| search_items := Some []; videos_result := VideosThrows |}.

Definition search_fails : ResolveResult :=
  {| search_items := None; videos_result := VideosThrows |}.

Definition bot_tags : Tags :=
  {| username := "bot"; tag_id := "1"; display_name := "bot";
     subscriber := false; mod_ := false; tag_color := None |}.

Definition feed_ended : ListResult :=
  ListThrows (Some "The live chat is no longer available.").

(** One subscriber has asked for the feed of channel "UC" at time
    [now]; the feed "chat" was found and interval 0 polls it. *)
Definition polling_since (now : Z) : Server :=
  state_after
    (run [Connection; StartConnection (pull_only "UC") now (feed_found "chat")])
    init.
End Scenario.

(** ** Further vocabulary for the properties of the code *)

(** What tmi.js hands to the message callback. *)
Record TwitchRaw := {
  raw_channel : string;
  raw_tags : Tags;
  raw_message : string;
  raw_self : bool
}.

Definition twitch_event (m : TwitchRaw) : Event :=
  TwitchMessage (raw_channel m) (raw_tags m) (raw_message m) (raw_self m).

(** The phrase line 118 looks for. *)
Definition ended_phrase : string := "The live chat is no longer available".

(** One of the two calls of [getLiveChatId] throws. *)
Definition resolve_throws (api : ResolveResult) : Prop :=
  search_items api = None ∨
  ∃ v l, search_items api = Some (v :: l) ∧ videos_result api = VideosThrows.

(** The actions that belong to the pull connector's poll. *)
Definition poll_action (a : Action) : Prop :=
  match a with
  | YoutubeLiveChatMessagesList _ | IoEmitChat _ | IoEmitError _
  | ClearInterval _ => True
  | _ => False
  end.

(** The actions that take something down. *)
Definition detaching_action (a : Action) : Prop :=
  match a with
  | TwitchPart _ | ClearInterval _ => True
  | _ => False
  end.

(** The runtime hands out interval handles in increasing order: every
    armed interval, and the handle the session holds, is older than the
    next handle. *)
Record timers_fresh (s : Server) : Prop := {
  fresh_armed : ∀ t, t ∈ timers s → (t < nextTimer s)%nat;
  fresh_held : ∀ h, youtubeInterval s = Some h → (h < nextTimer s)%nat
}.

(** ** Laws of the monad *)

Ltac unfold_m :=
  unfold state_after, actions_of, result_of, bind, ret, get, modify, perform.

(** An interval that is armed while the session holds another handle,
    or none. *)
Definition orphaned (h : nat) (s : Server) : Prop :=
  h ∈ timers s ∧ youtubeInterval s ≠ Some h.

(** Evaluates the monadic plumbing by value, which keeps the terms of a
    handler small; the state and its fields are left folded. *)
Ltac eval_m :=
  cbn [search_items videos_result data_twitchChannel data_youtubeChannelId];
  cbv [state_after actions_of result_of bind ret get modify perform
       setInterval clearInterval fst snd];
  cbn [app twitchChannel youtubeLiveChatId youtubeInterval lastYoutubeCheck
       clientsCount timers nextTimer set_twitchChannel set_youtubeLiveChatId
       set_youtubeInterval set_lastYoutubeCheck set_clientsCount fst snd].

Section Monad.
Context {A B : Type}.
Implicit Types (m : M A) (k : A → M B) (s : Server).

Lemma state_after_bind m k s :
  state_after (bind m k) s = state_after (k (result_of m s)) (state_after m s).
Proof. reflexivity. Qed.

Lemma actions_of_bind m k s :
  actions_of (bind m k) s =
  actions_of m s ++ actions_of (k (result_of m s)) (state_after m s).
Proof. reflexivity. Qed.
End Monad.

Lemma bind_get {A B} (f : Server → A) (k : A → M B) (s : Server) :
  bind (get f) k s = k (f s) s.
Proof. unfold bind, get. simpl. by destruct (k (f s) s) as [[b s'] log]. Qed.

Lemma bind_modify {B} (f : Server → Server) (k : unit → M B) (s : Server) :
  bind (modify f) k s = k tt (f s).
Proof. unfold bind, modify. simpl. by destruct (k tt (f s)) as [[b s'] log]. Qed.

Lemma run_app (l1 l2 : list Event) (s : Server) :
  state_after (run (l1 ++ l2)) s = state_after (run l2) (state_after (run l1) s) ∧
  actions_of (run (l1 ++ l2)) s =
    actions_of (run l1) s ++ actions_of (run l2) (state_after (run l1) s).
Proof.
  revert s. induction l1 as [|e l1 IH]; intros s; [done|].
  change (run ((e :: l1) ++ l2)) with (handle e ;; run (l1 ++ l2)).
  change (run (e :: l1)) with (handle e ;; run l1).
  rewrite !state_after_bind, !actions_of_bind.
  destruct (IH (state_after (handle e) s)) as [-> ->].
  by rewrite app_assoc.
Qed.

Lemma run_cons (e : Event) (l : list Event) (s : Server) :
  state_after (run (e :: l)) s = state_after (run l) (state_after (handle e) s) ∧
  actions_of (run (e :: l)) s =
    actions_of (handle e) s ++ actions_of (run l) (state_after (handle e) s).
Proof. done. Qed.

(** ** Truthiness *)

Lemma truthy_Some v c : truthy v = Some c → v = Some c.
Proof.
  destruct v as [d|]; simpl; [|done].
  destruct (String.eqb d ""); congruence.
Qed.

Lemma truthy_idem v c : truthy v = Some c → truthy (Some c) = Some c.
Proof. intros H. by rewrite (truthy_Some _ _ H) in H. Qed.

(** ** The loop of lines 97-110 *)

Lemma forward_item_state item s : state_after (forward_item item) s = s.
Proof. unfold forward_item. unfold_m. simpl. by destruct (is_new _ _). Qed.

Lemma forward_item_actions item s :
  actions_of (forward_item item) s =
  if is_new (lastYoutubeCheck s) (publishedAt item)
  then [IoEmitChat (youtubeChatMessage item)] else [].
Proof. unfold forward_item. unfold_m. simpl. by destruct (is_new _ _). Qed.

Lemma forEach_forward_state items s :
  state_after (forEach items forward_item) s = s.
Proof.
  induction items as [|item items IH]; [done|].
  simpl. by rewrite state_after_bind, forward_item_state.
Qed.

Lemma forEach_forward_actions items s :
  actions_of (forEach items forward_item) s =
  (IoEmitChat ∘ youtubeChatMessage) <$>
    List.filter (λ item, is_new (lastYoutubeCheck s) (publishedAt item)) items.
Proof.
  induction items as [|item items IH]; [done|].
  simpl. rewrite actions_of_bind, forward_item_state, forward_item_actions, IH.
  by destruct (is_new _ _).
Qed.

Lemma chat_messages_emits (l : list LiveChatMessage) :
  chat_messages ((IoEmitChat ∘ youtubeChatMessage) <$> l) = youtubeChatMessage <$> l.
Proof.
  induction l as [|x l IH]; [done|].
  rewrite !fmap_cons. unfold chat_messages in *. cbn. f_equal. exact IH.
Qed.

Lemma filter_is_new w (items : list LiveChatMessage) :
  List.filter (λ item, is_new (Some w) (publishedAt item)) items =
  filter (λ item, w < publishedAt item) items.
Proof.
  induction items as [|item items IH]; [done|].
  rewrite filter_cons, <- IH. cbn [List.filter is_new].
  destruct (decide (w < publishedAt item)) as [Hlt|Hlt].
  - by rewrite bool_decide_true.
  - by rewrite bool_decide_false.
Qed.

(** ** What a poll does *)

Lemma on_list_items_state items s :
  state_after (on_list_result (ListItems items)) s =
  match last items with
  | Some item => set_lastYoutubeCheck (Some (publishedAt item)) s
  | None => s
  end.
Proof.
  unfold on_list_result. rewrite state_after_bind.
  change (state_after (ret Fulfilled) ?x) with x.
  case_bool_decide as Hlen.
  - rewrite state_after_bind, forEach_forward_state. by destruct (last items).
  - destruct items; [done|]. simpl in Hlen. lia.
Qed.

Lemma on_list_items_actions items s :
  actions_of (on_list_result (ListItems items)) s =
  (IoEmitChat ∘ youtubeChatMessage) <$>
    List.filter (λ item, is_new (lastYoutubeCheck s) (publishedAt item)) items.
Proof.
  unfold on_list_result. rewrite actions_of_bind.
  change (actions_of (ret Fulfilled) ?x) with (@nil Action). rewrite app_nil_r.
  case_bool_decide as Hlen.
  - rewrite actions_of_bind, forEach_forward_actions, forEach_forward_state.
    destruct (last items); unfold_m; simpl; by rewrite app_nil_r.
  - destruct items; [done|]. simpl in Hlen. lia.
Qed.

Lemma on_list_throws m s :
  on_list_result (ListThrows m) s =
  if chat_has_ended m
  then (Fulfilled,
        set_youtubeLiveChatId None (state_after (clearInterval (youtubeInterval s)) s),
        actions_of (clearInterval (youtubeInterval s)) s ++ [IoEmitError chat_ended_notice])
  else (Fulfilled, s, []).
Proof.
  unfold on_list_result. destruct (chat_has_ended m); [|done].
  unfold_m. simpl. by destruct (youtubeInterval s).
Qed.

Lemma on_list_unreadable s :
  on_list_result ListThrowsUnreadable s = (Rejected, s, []).
Proof. reflexivity. Qed.

Lemma fetch_idle r s :
  truthy (youtubeLiveChatId s) = None →
  fetchYoutubeMessages r s = (Fulfilled, s, []).
Proof. intros H. unfold fetchYoutubeMessages. unfold_m. simpl. by rewrite H. Qed.

Lemma fetch_polls r s c :
  truthy (youtubeLiveChatId s) = Some c →
  result_of (fetchYoutubeMessages r) s = result_of (on_list_result r) s ∧
  state_after (fetchYoutubeMessages r) s = state_after (on_list_result r) s ∧
  actions_of (fetchYoutubeMessages r) s =
    YoutubeLiveChatMessagesList c :: actions_of (on_list_result r) s.
Proof. intros H. unfold fetchYoutubeMessages. unfold_m. simpl. by rewrite H. Qed.

Lemma tick_eq r s :
  tick r s = (tt, state_after (fetchYoutubeMessages r) s,
              actions_of (fetchYoutubeMessages r) s).
Proof. unfold tick. unfold_m. simpl. by rewrite app_nil_r. Qed.

Lemma tick_idle r s :
  truthy (youtubeLiveChatId s) = None → tick r s = (tt, s, []).
Proof.
  intros H. rewrite tick_eq. unfold state_after, actions_of.
  by rewrite (fetch_idle r s H).
Qed.

Lemma tick_polls r s c :
  truthy (youtubeLiveChatId s) = Some c →
  state_after (tick r) s = state_after (on_list_result r) s ∧
  actions_of (tick r) s =
    YoutubeLiveChatMessagesList c :: actions_of (on_list_result r) s.
Proof.
  intros H. destruct (fetch_polls r s c H) as (_ & Hs & Ha).
  unfold state_after at 1, actions_of at 1. by rewrite tick_eq.
Qed.

Lemma interval_not_armed t r s :
  t ∉ timers s → handle (IntervalFires t r) s = (tt, s, []).
Proof. intros H. simpl. rewrite bind_get. by rewrite bool_decide_false. Qed.

Lemma interval_armed t r s :
  t ∈ timers s → handle (IntervalFires t r) s = tick r s.
Proof. intros H. simpl. rewrite bind_get. by rewrite bool_decide_true. Qed.

(** The three ways a timer event can go. *)
Lemma interval_cases t r s :
  handle (IntervalFires t r) s = (tt, s, []) ∨
  ∃ c, t ∈ timers s ∧ truthy (youtubeLiveChatId s) = Some c ∧
       state_after (handle (IntervalFires t r)) s = state_after (on_list_result r) s ∧
       actions_of (handle (IntervalFires t r)) s =
         YoutubeLiveChatMessagesList c :: actions_of (on_list_result r) s.
Proof.
  destruct (decide (t ∈ timers s)) as [Ht|Ht]; [|left; by apply interval_not_armed].
  destruct (truthy (youtubeLiveChatId s)) as [c|] eqn:Hc.
  - right. exists c. destruct (tick_polls r s c Hc) as [Hs Ha].
    unfold state_after, actions_of in *. by rewrite (interval_armed t r s Ht).
  - left. by rewrite (interval_armed t r s Ht), (tick_idle r s Hc).
Qed.

(** ** The invariant *)

Lemma init_invariant : invariant init.
Proof. split; simpl; intros; by try (match goal with H : is_Some None |- _ => destruct H end). Qed.

Lemma on_list_result_invariant r s :
  invariant s → invariant (state_after (on_list_result r) s).
Proof.
  intros [Hw Hi Ht]. destruct r as [items|m|]; [| |by split].
  - rewrite on_list_items_state. destruct (last items); [|by split].
    split; simpl; eauto.
  - unfold state_after. rewrite on_list_throws.
    destruct (chat_has_ended m); [|by split]. simpl.
    split; simpl; try (by intros []).
    destruct (youtubeInterval s); simpl; eauto.
Qed.

Lemma start_connection_invariant data now api s :
  invariant s → invariant (state_after (start_connection data now api) s).
Proof.
  intros [Hw Hi Ht]. unfold start_connection, getLiveChatId.
  destruct data as [tw yt]. simpl.
  assert (∀ c c', truthy tw = Some c → Some c = Some c' → truthy (Some c') = Some c')
    as Htw by (intros c c' H [= <-]; by eapply truthy_idem).
  destruct (truthy tw) as [c|]; destruct (truthy yt) as [channelId|];
    destruct api as [[[|v l]|] [|chat]]; eval_m;
    try (destruct (truthy chat) eqn:Hchat; eval_m);
    split; cbn; rewrite ?Hchat; eauto; by intros [].
Qed.

Lemma on_disconnect_invariant s :
  invariant s → invariant (state_after on_disconnect s).
Proof.
  intros [Hw Hi Ht]. unfold on_disconnect. unfold_m. simpl.
  case_bool_decide; [|by split]. simpl.
  destruct (truthy (twitchChannel s)) as [c|] eqn:Hc; simpl;
    (destruct (youtubeInterval s) as [h|] eqn:Hh; simpl;
     [split; simpl; try (by intros []); eauto; try done
     |split; simpl; rewrite ?Hh; eauto; try done]).
Qed.

Lemma handle_invariant e s : invariant s → invariant (state_after (handle e) s).
Proof.
  intros Hinv. destruct e as [|data now api|channel tags message self|t r| | |].
  - destruct Hinv. by split.
  - by apply start_connection_invariant.
  - simpl. unfold on_twitch_message. by destruct self.
  - destruct (interval_cases t r s) as [H|(c & _ & _ & -> & _)].
    + unfold state_after. by rewrite H.
    + by apply on_list_result_invariant.
  - simpl. rewrite state_after_bind. unfold result_of, get. simpl.
    destruct (clientsCount s) as [|k] eqn:Hk; [done|].
    rewrite state_after_bind. apply on_disconnect_invariant.
    destruct Hinv. by split.
  - simpl. rewrite state_after_bind. unfold result_of, get. simpl.
    destruct (clientsCount s) as [|k] eqn:Hk; [done|].
    by apply on_disconnect_invariant.
  - simpl. rewrite state_after_bind. unfold result_of, get. simpl.
    destruct (clientsCount s) as [|k] eqn:Hk; [done|].
    destruct Hinv. by split.
Qed.

Lemma run_invariant events s : invariant s → invariant (state_after (run events) s).
Proof.
  revert s. induction events as [|e events IH]; intros s Hinv; [done|].
  destruct (run_cons e events s) as [-> _]. by apply IH, handle_invariant.
Qed.

Lemma reachable_invariant s : reachable s → invariant s.
Proof. intros [events <-]. apply run_invariant, init_invariant. Qed.

(** ** The pull connector *)

Lemma poll_chat_messages s t items c :
  t ∈ timers s → truthy (youtubeLiveChatId s) = Some c →
  chat_messages (actions_of (handle (IntervalFires t (ListItems items))) s) =
  youtubeChatMessage <$>
    List.filter (λ item, is_new (lastYoutubeCheck s) (publishedAt item)) items.
Proof.
  intros Ht Hc. unfold actions_of. rewrite (interval_armed _ _ _ Ht).
  destruct (tick_polls (ListItems items) s c Hc) as [_ Ha].
  unfold actions_of in Ha. rewrite Ha.
  change (chat_messages (?a :: ?l)) with (chat_messages l).
  pose proof (on_list_items_actions items s) as Hl. unfold actions_of in Hl.
  by rewrite Hl, chat_messages_emits.
Qed.

(** C1: whatever the server has gone through, a poll either does nothing
    or filters against a watermark [w] that is in place: the chat messages
    it broadcasts are those of the items of the batch published strictly
    after [w], in order, and the callback broadcasts nothing for an item
    published at or before [w]. *)
Theorem poll_forwards_only_newer_than_watermark
    (events : list Event) (t : nat) (items : list LiveChatMessage) :
  let s := state_after (run events) init in
  let log := actions_of (handle (IntervalFires t (ListItems items))) s in
  log = [] ∨
  ∃ w, lastYoutubeCheck s = Some w ∧
       chat_messages log =
         youtubeChatMessage <$> filter (λ item, w < publishedAt item) items ∧
       ∀ item, item ∈ items → publishedAt item ≤ w →
               actions_of (forward_item item) s = [].
Proof.
  intros s log.
  destruct (interval_cases t (ListItems items) s) as [H|(c & Ht & Hc & _ & _)].
  { left. subst log. unfold actions_of. by rewrite H. }
  right.
  assert (invariant s) as [Hw _ _] by (apply reachable_invariant; by eexists).
  destruct Hw as [w Hw]; [by rewrite Hc|].
  exists w. split; [done|]. split.
  - subst log. by rewrite (poll_chat_messages s t items c Ht Hc), Hw, filter_is_new.
  - intros item _ Hle. rewrite forward_item_actions, Hw. simpl.
    rewrite bool_decide_false; [done|lia].
Qed.

(** The scenario of the specification: with the watermark at 5, the batch
    10, 20, 30 is forwarded whole; the next batch 20, 30, 40 forwards the
    item of 40 only and leaves the watermark at 40. *)
Example scenario_two_polls :
  let first := handle (IntervalFires 0 (ListItems
                 [Scenario.message "a" 10; Scenario.message "b" 20; Scenario.message "c" 30])) in
  let second := handle (IntervalFires 0 (ListItems
                 [Scenario.message "b" 20; Scenario.message "c" 30; Scenario.message "d" 40])) in
  let s0 := Scenario.polling_since 5 in
  let s1 := state_after first s0 in
  let s2 := state_after second s1 in
  msg_id <$> chat_messages (actions_of first s0) = ["a"; "b"; "c"] ∧
  lastYoutubeCheck s1 = Some 30 ∧
  msg_id <$> chat_messages (actions_of second s1) = ["d"] ∧
  lastYoutubeCheck s2 = Some 40.
Proof. vm_compute. done. Qed.

(** C2, as amended: a poll that returns items sets the watermark to the
    publish time of the last item of the batch, whether or not items were
    filtered out; the watermark moves strictly forward exactly when that
    last item is itself forwarded, that is, published after the watermark
    held before the poll. *)
Theorem poll_sets_watermark_to_last_item
    (s : Server) (t : nat) (items : list LiveChatMessage) (item : LiveChatMessage) :
  let poll := handle (IntervalFires t (ListItems items)) in
  t ∈ timers s → is_Some (truthy (youtubeLiveChatId s)) → last items = Some item →
  lastYoutubeCheck (state_after poll s) = Some (publishedAt item) ∧
  (watermark_lt (lastYoutubeCheck s) (lastYoutubeCheck (state_after poll s)) ↔
   actions_of (forward_item item) s = [IoEmitChat (youtubeChatMessage item)]).
Proof.
  intros poll Ht [c Hc] Hlast. subst poll.
  assert (lastYoutubeCheck (state_after (handle (IntervalFires t (ListItems items))) s)
          = Some (publishedAt item)) as Hw.
  { unfold state_after. rewrite (interval_armed _ _ _ Ht).
    destruct (tick_polls (ListItems items) s c Hc) as [Hs _].
    unfold state_after in Hs. rewrite Hs.
    pose proof (on_list_items_state items s) as Hi. unfold state_after in Hi.
    by rewrite Hi, Hlast. }
  split; [done|]. rewrite Hw, forward_item_actions.
  destruct (lastYoutubeCheck s) as [w|]; simpl; [|done].
  case_bool_decide; split; intros; (done || lia).
Qed.

Lemma poll_sets_watermark_to_last_item_witness :
  let s := Scenario.polling_since 5 in
  let items := [Scenario.message "a" 10; Scenario.message "b" 20] in
  lastYoutubeCheck
    (state_after (handle (IntervalFires 0 (ListItems items))) s) = Some 20 ∧
  (watermark_lt (lastYoutubeCheck s)
     (lastYoutubeCheck (state_after (handle (IntervalFires 0 (ListItems items))) s)) ↔
   actions_of (forward_item (Scenario.message "b" 20)) s =
     [IoEmitChat (youtubeChatMessage (Scenario.message "b" 20))]).
Proof.
  intros s items.
  apply (poll_sets_watermark_to_last_item s 0 items (Scenario.message "b" 20)).
  - vm_compute. reflexivity.
  - vm_compute. eexists. reflexivity.
  - reflexivity.
Defined.

(** C2 fails as stated: polling the batch 10, 20, 30 a second time leaves
    the watermark at 30, so a poll with a non-empty batch does not move it
    strictly forward. *)
Lemma watermark_stalls_on_repeated_batch :
  let batch := ListItems [Scenario.message "a" 10; Scenario.message "b" 20;
                          Scenario.message "c" 30] in
  let s := state_after (handle (IntervalFires 0 batch)) (Scenario.polling_since 5) in
  let s' := state_after (handle (IntervalFires 0 batch)) s in
  actions_of (handle (IntervalFires 0 batch)) s = [YoutubeLiveChatMessagesList "chat"] ∧
  lastYoutubeCheck s = Some 30 ∧ lastYoutubeCheck s' = Some 30 ∧
  ¬ watermark_lt (lastYoutubeCheck s) (lastYoutubeCheck s').
Proof. vm_compute. repeat split; try done. Qed.

Lemma watermark_le_refl w : watermark_le w w.
Proof. destruct w; simpl; [lia|done]. Qed.

Lemma watermark_le_trans a b c :
  watermark_le a b → watermark_le b c → watermark_le a c.
Proof. destruct a, b, c; simpl; try done. lia. Qed.

Lemma poll_keeps_up s t r :
  ends_at_or_after (lastYoutubeCheck s) r →
  watermark_le (lastYoutubeCheck s)
    (lastYoutubeCheck (state_after (handle (IntervalFires t r)) s)).
Proof.
  intros Hr.
  destruct (interval_cases t r s) as [H|(c & _ & _ & -> & _)].
  { unfold state_after. rewrite H. apply watermark_le_refl. }
  destruct r as [items|m|].
  - rewrite on_list_items_state. simpl in Hr.
    destruct (last items); [done|apply watermark_le_refl].
  - unfold state_after. rewrite on_list_throws.
    destruct (chat_has_ended m); simpl; [|apply watermark_le_refl].
    destruct (youtubeInterval s); apply watermark_le_refl.
  - apply watermark_le_refl.
Qed.

(** C3, as amended: across a sequence of polls the watermark does not
    decrease provided every batch that has items ends at or after the
    watermark held when it is polled; empty batches and failed fetches
    leave it where it is. *)
Theorem watermark_non_decreasing_when_batches_keep_up
    (s : Server) (l : list (nat * ListResult)) :
  batches_keep_up s l →
  watermark_le (lastYoutubeCheck s) (lastYoutubeCheck (state_after (run (polls l)) s)).
Proof.
  revert s. induction l as [|p l IH]; intros s H.
  - apply watermark_le_refl.
  - destruct H as [Hp Hl].
    change (polls (p :: l)) with (IntervalFires p.1 p.2 :: polls l).
    destruct (run_cons (IntervalFires p.1 p.2) (polls l) s) as [-> _].
    eapply watermark_le_trans; [by apply poll_keeps_up|by apply IH].
Qed.

Lemma watermark_non_decreasing_when_batches_keep_up_witness :
  let l := [(0%nat, ListItems [Scenario.message "a" 10; Scenario.message "b" 20]);
            (0%nat, ListItems []);
            (0%nat, ListThrows None);
            (0%nat, ListItems [Scenario.message "b" 20; Scenario.message "c" 30])] in
  let s := Scenario.polling_since 5 in
  batches_keep_up s l ∧
  watermark_le (lastYoutubeCheck s) (lastYoutubeCheck (state_after (run (polls l)) s)).
Proof.
  intros l s.
  assert (batches_keep_up s l) as H by (vm_compute; repeat split; discriminate).
  split; [exact H|].
  exact (watermark_non_decreasing_when_batches_keep_up s l H).
Defined.

(** C3 fails as stated: the start request puts the watermark at its own
    time, 100, and the first poll, whose batch ends at 30, moves the
    watermark back to 30. *)
Lemma watermark_decreases_on_backlog :
  let batch := ListItems [Scenario.message "a" 10; Scenario.message "b" 20;
                          Scenario.message "c" 30] in
  let s := Scenario.polling_since 100 in
  let s' := state_after (run (polls [(0%nat, batch)])) s in
  lastYoutubeCheck s = Some 100 ∧ lastYoutubeCheck s' = Some 30 ∧
  ¬ watermark_le (lastYoutubeCheck s) (lastYoutubeCheck s').
Proof. vm_compute. repeat split; try done. Qed.

(** ** The push connector *)

(** The branch of line 46: a message that tmi.js flags as the client's
    own is dropped; nothing is broadcast and the state is left as it
    is. *)
Lemma self_messages_are_not_forwarded
    (s : Server) (channel : string) (tags : Tags) (message : string) :
  handle (TwitchMessage channel tags message true) s = (tt, s, []).
Proof. reflexivity. Qed.

(** Any other message is broadcast once, normalized. *)
Lemma other_messages_are_forwarded s channel tags message :
  actions_of (handle (TwitchMessage channel tags message false)) s =
  [IoEmitChat (twitchChatMessage tags message)].
Proof. reflexivity. Qed.

(** C4, evaluated where the claim and the code part: the callback never
    looks at the author.  A chat message that arrives from the server and
    was written by the connected identity, [TWITCH_USERNAME], reaches the
    callback with [self] false, and the callback broadcasts it like any
    other message: one chat message is emitted, where the claim says
    none. *)
Theorem own_inbound_message_is_forwarded
    (TWITCH_USERNAME : string) (s : Server)
    (channel : string) (tags : Tags) (message : string) :
  username tags = TWITCH_USERNAME →
  handle (inbound_message channel tags message) s =
  (tt, s, [IoEmitChat (twitchChatMessage tags message)]).
Proof. intros _. unfold inbound_message. cbn [handle]. reflexivity. Qed.

Lemma own_inbound_message_is_forwarded_witness :
  let s := state_after
             (run [Connection; StartConnection (Scenario.push_only "abc") 0
                                 Scenario.nothing_live]) init in
  username Scenario.bot_tags = "bot" ∧
  handle (inbound_message "#abc" Scenario.bot_tags "hi") s =
  (tt, s, [IoEmitChat (twitchChatMessage Scenario.bot_tags "hi")]).
Proof.
  intros s. split; [reflexivity|].
  apply (own_inbound_message_is_forwarded "bot" s "#abc" Scenario.bot_tags "hi").
  reflexivity.
Defined.

(** The scenario of the specification, both ways: joined to "abc", the
    echo of a message the client sent itself forwards nothing, while a
    message of the account "bot" that arrives from the server is
    forwarded. *)
Example scenario_self_message :
  let s := state_after
             (run [Connection; StartConnection (Scenario.push_only "abc") 0
                                 Scenario.nothing_live]) init in
  twitchChannel s = Some "abc" ∧
  chat_messages (actions_of (handle (TwitchMessage "#abc" Scenario.bot_tags "hi" true)) s) = [] ∧
  user <$> chat_messages
             (actions_of (handle (inbound_message "#abc" Scenario.bot_tags "hi")) s) = ["bot"].
Proof. vm_compute. done. Qed.

(** ** The end of the feed *)

Lemma polled_feeds_app l1 l2 :
  polled_feeds (l1 ++ l2) = polled_feeds l1 ++ polled_feeds l2.
Proof. apply omap_app. Qed.

Lemma notices_app l1 l2 : notices (l1 ++ l2) = notices l1 ++ notices l2.
Proof. apply omap_app. Qed.

(** With no feed handle in place, an event other than a start request
    for a pull channel polls nothing, broadcasts no notice and leaves the
    handle absent. *)
Lemma idle_step e s :
  youtubeLiveChatId s = None → ¬ names_pull_channel e →
  youtubeLiveChatId (state_after (handle e) s) = None ∧
  polled_feeds (actions_of (handle e) s) = [] ∧
  notices (actions_of (handle e) s) = [].
Proof.
  intros Hid He. destruct e as [|data now api|channel tags message self|t r| | |].
  - done.
  - simpl in *. unfold start_connection.
    destruct (truthy (data_youtubeChannelId data)); [by destruct He|].
    by destruct (truthy (data_twitchChannel data)).
  - by destruct self.
  - destruct (interval_cases t r s) as [H|(c & _ & Hc & _)].
    + unfold state_after, actions_of. by rewrite H.
    + by rewrite Hid in Hc.
  - unfold state_after, actions_of. cbn [handle]. rewrite bind_get.
    destruct (clientsCount s) as [|k]; [done|].
    unfold on_disconnect. unfold_m. simpl.
    case_bool_decide; [|done]. simpl.
    destruct (truthy (twitchChannel s)); simpl; by destruct (youtubeInterval s).
  - unfold state_after, actions_of. cbn [handle]. rewrite bind_get.
    destruct (clientsCount s) as [|k]; [done|].
    unfold on_disconnect. unfold_m. simpl.
    case_bool_decide; [|done]. simpl.
    destruct (truthy (twitchChannel s)); simpl; by destruct (youtubeInterval s).
  - unfold state_after, actions_of. cbn [handle]. rewrite bind_get.
    by destruct (clientsCount s) as [|k].
Qed.

Lemma idle_run events s :
  youtubeLiveChatId s = None → Forall (λ e, ¬ names_pull_channel e) events →
  youtubeLiveChatId (state_after (run events) s) = None ∧
  polled_feeds (actions_of (run events) s) = [] ∧
  notices (actions_of (run events) s) = [].
Proof.
  revert s. induction events as [|e events IH]; intros s Hid Hev; [done|].
  apply Forall_cons in Hev as [He Hev].
  destruct (run_cons e events s) as [-> ->].
  destruct (idle_step e s Hid He) as (Hid' & Hp & Hn).
  destruct (IH _ Hid' Hev) as (? & Hp' & Hn').
  by rewrite polled_feeds_app, notices_app, Hp, Hn, Hp', Hn'.
Qed.

(** C5, as amended: when a poll of feed [c] fails with the message that
    the chat is no longer available, the server broadcasts the notice of
    the end exactly once, clears the feed handle and disarms the interval
    it holds, while the variable of the interval handle and the watermark
    keep their values; from then on, until a start request names a pull
    channel again, no feed is polled, no notice is broadcast and the feed
    handle stays absent. *)
Theorem feed_ended_stops_polling
    (events : list Event) (t : nat) (message c : string) (later : list Event) :
  let s := state_after (run events) init in
  let poll := handle (IntervalFires t (ListThrows (Some message))) in
  let s' := state_after poll s in
  t ∈ timers s → truthy (youtubeLiveChatId s) = Some c →
  includes message "The live chat is no longer available" = true →
  Forall (λ e, ¬ names_pull_channel e) later →
  polled_feeds (actions_of poll s) = [c] ∧
  notices (actions_of poll s) = [chat_ended_notice] ∧
  youtubeLiveChatId s' = None ∧
  (∃ h, youtubeInterval s = Some h ∧ h ∉ timers s') ∧
  youtubeInterval s' = youtubeInterval s ∧
  lastYoutubeCheck s' = lastYoutubeCheck s ∧
  polled_feeds (actions_of (run later) s') = [] ∧
  notices (actions_of (run later) s') = [] ∧
  youtubeLiveChatId (state_after (run later) s') = None.
Proof.
  intros s poll s' Ht Hc Hm Hlater.
  assert (invariant s) as [_ Hi _] by (apply reachable_invariant; by eexists).
  destruct Hi as [h Hh]; [by rewrite Hc|].
  assert (poll s = (tt,
            set_youtubeLiveChatId None (state_after (clearInterval (Some h)) s),
            [YoutubeLiveChatMessagesList c; ClearInterval h;
             IoEmitError chat_ended_notice])) as Hpoll.
  { subst poll. rewrite (interval_armed _ _ _ Ht), tick_eq.
    destruct (fetch_polls (ListThrows (Some message)) s c Hc) as (_ & -> & ->).
    unfold state_after, actions_of. rewrite on_list_throws.
    cbn [chat_has_ended]. rewrite Hm. cbn [fst snd]. by rewrite Hh. }
  assert (youtubeLiveChatId s' = None) as Hid
    by (subst s'; unfold state_after; by rewrite Hpoll).
  unfold actions_of at 1 2. rewrite Hpoll. simpl.
  assert (s' = set_youtubeLiveChatId None (state_after (clearInterval (Some h)) s))
    as Hs' by (subst s'; unfold state_after; by rewrite Hpoll).
  split_and!; try done.
  - exists h. split; [done|]. rewrite Hs'. simpl.
    apply not_elem_of_difference. right. by apply elem_of_singleton.
  - by rewrite Hs'.
  - by rewrite Hs'.
  - by apply idle_run.
  - by apply idle_run.
  - by apply idle_run.
Qed.

Lemma feed_ended_stops_polling_witness :
  let events := [Connection;
                 StartConnection (Scenario.pull_only "UC") 0 (Scenario.feed_found "chat")] in
  let later := [IntervalFires 0 (ListItems [Scenario.message "a" 10]);
                Connection;
                StartConnection (Scenario.push_only "abc") 20 Scenario.nothing_live;
                Disconnect] in
  let s := state_after (run events) init in
  let poll := handle (IntervalFires 0 Scenario.feed_ended) in
  let s' := state_after poll s in
  polled_feeds (actions_of poll s) = ["chat"] ∧
  notices (actions_of poll s) = [chat_ended_notice] ∧
  youtubeLiveChatId s' = None ∧
  (∃ h, youtubeInterval s = Some h ∧ h ∉ timers s') ∧
  youtubeInterval s' = youtubeInterval s ∧
  lastYoutubeCheck s' = lastYoutubeCheck s ∧
  polled_feeds (actions_of (run later) s') = [] ∧
  notices (actions_of (run later) s') = [] ∧
  youtubeLiveChatId (state_after (run later) s') = None.
Proof.
  intros events later s poll s'.
  apply (feed_ended_stops_polling events 0
           "The live chat is no longer available." "chat" later).
  - vm_compute. reflexivity.
  - reflexivity.
  - reflexivity.
  - repeat constructor; simpl; intros H; try exact H; by destruct H.
Defined.

(** C5 fails as stated: after the feed "chat" has ended, a start request
    that resolves to "chat" again makes the server poll that feed
    again. *)
Lemma ended_feed_is_polled_again_after_restart :
  let s := state_after (handle (IntervalFires 0 Scenario.feed_ended))
             (Scenario.polling_since 0) in
  let later := [StartConnection (Scenario.pull_only "UC") 50 (Scenario.feed_found "chat");
                IntervalFires 1 (ListItems [])] in
  youtubeLiveChatId s = None ∧
  polled_feeds (actions_of (run later) s) = ["chat"] ∧
  ¬ (∀ events, "chat" ∉ polled_feeds (actions_of (run events) s)).
Proof.
  intros s later. split; [reflexivity|]. split; [by vm_compute|].
  intros H. apply (H later). vm_compute. left.
Qed.

(** ** Subscribers leaving *)

Lemma handle_disconnect s :
  handle Disconnect s =
  match clientsCount s with
  | O => (tt, s, [])
  | S k => on_disconnect (set_clientsCount k s)
  end.
Proof.
  cbn [handle]. rewrite bind_get. destruct (clientsCount s) as [|k]; [done|].
  by rewrite bind_modify.
Qed.

Lemma on_disconnect_idle s :
  clientsCount s ≠ 0%nat → on_disconnect s = (tt, s, []).
Proof.
  intros H. unfold on_disconnect. rewrite bind_get. by rewrite bool_decide_false.
Qed.

(** C6, as amended: when the transport of the last subscriber closes,
    so that the handler runs after the engine has counted the connection
    out and sees a count of 0, it clears the push-source handle and the
    handle of the polling schedule, disarms the interval that handle
    names and leaves no pull-source handle in use; the watermark is not
    cleared, it keeps its value. *)
Theorem last_disconnect_clears_handles (events : list Event) :
  let s := state_after (run events) init in
  let s' := state_after (handle Disconnect) s in
  clientsCount s = 1%nat →
  clientsCount s' = 0%nat ∧
  twitchChannel s' = None ∧
  youtubeInterval s' = None ∧
  truthy (youtubeLiveChatId s') = None ∧
  (∀ h, youtubeInterval s = Some h → (h ∉ timers s') ∧ youtubeLiveChatId s' = None) ∧
  lastYoutubeCheck s' = lastYoutubeCheck s.
Proof.
  intros s s' Hcount.
  assert (invariant s) as [_ Hi Ht] by (apply reachable_invariant; by eexists).
  subst s'. unfold state_after at 1 2 3 4 5 6 7.
  rewrite handle_disconnect, Hcount.
  unfold on_disconnect. unfold_m. simpl.
  assert (∀ h : nat, h ∉ timers s ∖ {[h]}) as Hgone.
  { intros h. apply not_elem_of_difference. right. by apply elem_of_singleton. }
  assert (youtubeInterval s = None → truthy (youtubeLiveChatId s) = None) as Hidle.
  { intros Hh. destruct (truthy (youtubeLiveChatId s)) eqn:Hid; [|done].
    destruct Hi as [? ?]; [by eexists|congruence]. }
  destruct (twitchChannel s) as [c|] eqn:Hc.
  - rewrite (Ht c eq_refl). simpl.
    destruct (youtubeInterval s) as [h|] eqn:Hh; simpl.
    + split_and!; try done. by intros h' [= <-].
    + split_and!; try done. by apply Hidle.
  - simpl. destruct (youtubeInterval s) as [h|] eqn:Hh; simpl.
    + split_and!; try done. by intros h' [= <-].
    + split_and!; try done. by apply Hidle.
Qed.

Lemma last_disconnect_clears_handles_witness :
  let events := [Connection;
                 StartConnection
                   {| data_twitchChannel := Some "abc"; data_youtubeChannelId := Some "UC" |}
                   100 (Scenario.feed_found "chat")] in
  let s := state_after (run events) init in
  let s' := state_after (handle Disconnect) s in
  clientsCount s = 1%nat ∧
  clientsCount s' = 0%nat ∧
  twitchChannel s' = None ∧
  youtubeInterval s' = None ∧
  truthy (youtubeLiveChatId s') = None ∧
  (∀ h, youtubeInterval s = Some h → (h ∉ timers s') ∧ youtubeLiveChatId s' = None) ∧
  lastYoutubeCheck s' = lastYoutubeCheck s.
Proof.
  intros events s s'. split; [reflexivity|].
  apply (last_disconnect_clears_handles events). reflexivity.
Defined.

(** C6 fails as stated: after the transport of the only subscriber of a
    polling session has closed and the handler has run with the count at
    0, the watermark still holds the time of the start request. *)
Lemma watermark_survives_last_disconnect :
  let s := Scenario.polling_since 100 in
  let s' := state_after (handle Disconnect) s in
  clientsCount s = 1%nat ∧ clientsCount s' = 0%nat ∧
  lastYoutubeCheck s' = Some 100 ∧ ¬ session_empty s'.
Proof.
  intros s s'. repeat split; try reflexivity.
  intros (_ & _ & _ & H). vm_compute in H. discriminate.
Qed.

(** The other way of leaving is outside the amended claim: when the last
    subscriber disconnects its socket itself, the handler runs while the
    engine still counts the connection, so it finds a count of 1 and
    cleans nothing; the count then drops to 0 with the channel joined,
    the feed handle set and the interval armed. *)
Example scenario_last_subscriber_disconnects_itself :
  let both := {| data_twitchChannel := Some "abc"; data_youtubeChannelId := Some "UC" |} in
  let s := state_after
             (run [Connection; StartConnection both 100 (Scenario.feed_found "chat")])
             init in
  let s' := state_after (run [ClientDisconnect; EngineClose]) s in
  clientsCount s = 1%nat ∧ clientsCount s' = 0%nat ∧
  actions_of (run [ClientDisconnect; EngineClose]) s = [] ∧
  session s' = (Some "abc", Some "chat", Some 0%nat, Some 100) ∧
  bool_decide (0%nat ∈ timers s') = true.
Proof. vm_compute. done. Qed.

(** C9: a disconnect that leaves subscribers behind changes none of the
    session variables, leaves the armed intervals armed and calls nothing;
    a disconnect that does change any of these is the one that brings the
    count from 1 to 0. *)
Theorem disconnect_with_subscribers_left_changes_nothing (s : Server) :
  let s' := state_after (handle Disconnect) s in
  let log := actions_of (handle Disconnect) s in
  ((0 < clientsCount s')%nat →
   clientsCount s = S (clientsCount s') ∧
   session s' = session s ∧ timers s' = timers s ∧ log = []) ∧
  (session s' ≠ session s ∨ timers s' ≠ timers s ∨ log ≠ [] →
   clientsCount s = 1%nat ∧ clientsCount s' = 0%nat).
Proof.
  intros s' log. subst s' log. unfold state_after, actions_of.
  rewrite handle_disconnect.
  destruct (clientsCount s) as [|[|k]] eqn:Hcount.
  - simpl. rewrite Hcount. split; [lia|]. intros [H|[H|H]]; by destruct H.
  - split.
    + intros Hpos. exfalso. revert Hpos.
      unfold on_disconnect. unfold_m. simpl.
      destruct (truthy (twitchChannel s)); simpl;
        destruct (youtubeInterval s); simpl; lia.
    + intros _. split; [done|].
      unfold on_disconnect. unfold_m. simpl.
      destruct (truthy (twitchChannel s)); simpl;
        by destruct (youtubeInterval s).
  - rewrite on_disconnect_idle by done. simpl.
    split; [done|]. intros [H|[H|H]]; by destruct H.
Qed.

(** The scenario of the specification: of three subscribers of a session
    on both sources, the first two to leave change nothing; the third one
    parts the channel and disarms the interval. *)
Lemma disconnect_with_subscribers_left_changes_nothing_witness :
  let both := {| data_twitchChannel := Some "abc"; data_youtubeChannelId := Some "UC" |} in
  let s3 := state_after
              (run [Connection; Connection; Connection;
                    StartConnection both 100 (Scenario.feed_found "chat")]) init in
  let s2 := state_after (handle Disconnect) s3 in
  let s1 := state_after (handle Disconnect) s2 in
  let s0 := state_after (handle Disconnect) s1 in
  (clientsCount s3 = 3%nat ∧ session s2 = session s3 ∧ timers s2 = timers s3 ∧
   actions_of (handle Disconnect) s3 = []) ∧
  (clientsCount s2 = 2%nat ∧ session s1 = session s2 ∧ timers s1 = timers s2 ∧
   actions_of (handle Disconnect) s2 = []) ∧
  actions_of (handle Disconnect) s1 = [TwitchPart "abc"; ClearInterval 0] ∧
  clientsCount s1 = 1%nat ∧ clientsCount s0 = 0%nat.
Proof.
  intros both s3 s2 s1 s0. split; [|split; [|split]].
  - apply (proj1 (disconnect_with_subscribers_left_changes_nothing s3)).
    vm_compute. lia.
  - apply (proj1 (disconnect_with_subscribers_left_changes_nothing s2)).
    vm_compute. lia.
  - reflexivity.
  - apply (proj2 (disconnect_with_subscribers_left_changes_nothing s1)).
    right. right. discriminate.
Defined.

(** ** Start requests *)

Lemma set_twitchChannel_same s c :
  twitchChannel s = Some c → set_twitchChannel (Some c) s = s.
Proof. destruct s. simpl. by intros ->. Qed.

(** C7, as amended: a start request that names only the push channel the
    session has already joined leaves the whole state as it is, but it is
    not a no-op for the connector: the server calls [connect] and [join]
    for that channel again. *)
Theorem repeated_start_joins_again
    (s : Server) (c : string) (now : Z) (api : ResolveResult) :
  twitchChannel s = Some c → truthy (Some c) = Some c →
  handle (StartConnection (Scenario.push_only c) now api) s =
  (tt, s, [TwitchConnect; TwitchJoin c]).
Proof.
  intros Hjoined Hc. cbn [handle]. unfold start_connection.
  cbn [Scenario.push_only data_twitchChannel data_youtubeChannelId].
  rewrite Hc. unfold_m. simpl. by rewrite set_twitchChannel_same.
Qed.

Lemma repeated_start_joins_again_witness :
  let s := state_after
             (run [Connection;
                   StartConnection (Scenario.push_only "abc") 0 Scenario.nothing_live])
             init in
  (twitchChannel s = Some "abc" ∧ truthy (Some "abc") = Some "abc") ∧
  handle (StartConnection (Scenario.push_only "abc") 7 Scenario.nothing_live) s =
  (tt, s, [TwitchConnect; TwitchJoin "abc"]).
Proof.
  intros s. split; [by split|].
  apply (repeated_start_joins_again s "abc" 7 Scenario.nothing_live); reflexivity.
Defined.

(** A second start request for the pull channel resolves the feed again,
    resets the watermark and arms a second interval; the first one stays
    armed. *)
Example scenario_second_pull_start :
  let start := StartConnection (Scenario.pull_only "UC") 200 (Scenario.feed_found "chat") in
  let s := Scenario.polling_since 100 in
  let s' := state_after (handle start) s in
  actions_of (handle start) s =
    [YoutubeSearchList "UC"; YoutubeVideosList "video"; SetInterval 1] ∧
  lastYoutubeCheck s' = Some 200 ∧ youtubeInterval s' = Some 1%nat ∧
  bool_decide (0%nat ∈ timers s') = true ∧ bool_decide (1%nat ∈ timers s') = true.
Proof. vm_compute. done. Qed.

(** C7 fails as stated: with "abc" joined, a second start request for
    "abc" has the server join "abc" once more. *)
Lemma second_start_joins_joined_channel :
  let start := StartConnection (Scenario.push_only "abc") 0 Scenario.nothing_live in
  let s := state_after (run [Connection; start]) init in
  twitchChannel s = Some "abc" ∧
  actions_of (handle start) init = [TwitchConnect; TwitchJoin "abc"] ∧
  ¬ (TwitchJoin "abc" ∉ actions_of (handle start) s).
Proof.
  intros start s. split; [reflexivity|]. split; [reflexivity|].
  intros H. apply H. vm_compute. right. left.
Qed.

Lemma start_pull_state data now api s channelId :
  truthy (data_youtubeChannelId data) = Some channelId →
  lastYoutubeCheck (state_after (start_connection data now api) s) = Some now ∧
  youtubeLiveChatId (state_after (start_connection data now api) s) =
    result_of (getLiveChatId channelId api) s ∧
  (truthy (result_of (getLiveChatId channelId api) s) = None →
   timers (state_after (start_connection data now api) s) = timers s ∧
   actions_of (start_connection data now api) s =
     match truthy (data_twitchChannel data) with
     | Some c => [TwitchConnect; TwitchJoin c]
     | None => []
     end ++ actions_of (getLiveChatId channelId api) s).
Proof.
  intros Hyt. unfold start_connection, getLiveChatId. rewrite Hyt.
  destruct (truthy (data_twitchChannel data)) as [c|];
    destruct api as [[[|v l]|] [|chat]]; eval_m;
    try (destruct (truthy chat) eqn:Hchat; eval_m);
    split_and!; try done; rewrite ?Hchat; done.
Qed.

(** C8, evaluated where the claim and the code part: when the search
    finds no live video, [getLiveChatId] returns [null], no interval is
    armed and no feed handle is set, but the start request broadcasts no
    notice at all; the search is the only call it makes. *)
Theorem empty_search_attaches_nothing_and_emits_no_notice
    (s : Server) (channelId : string) (now : Z) (v : VideosResult) :
  let api := {| search_items := Some []; videos_result := v |} in
  let start := handle (StartConnection (Scenario.pull_only channelId) now api) in
  truthy (Some channelId) = Some channelId →
  result_of (getLiveChatId channelId api) s = None ∧
  youtubeLiveChatId (state_after start s) = None ∧
  timers (state_after start s) = timers s ∧
  actions_of start s = [YoutubeSearchList channelId] ∧
  notices (actions_of start s) = [].
Proof.
  intros api start Hc. subst start. cbn [handle].
  destruct (start_pull_state (Scenario.pull_only channelId) now api s channelId Hc)
    as (_ & Hid & Hrest).
  destruct Hrest as [Ht Ha]; [done|].
  rewrite Hid, Ht, Ha. by split_and!.
Qed.

Lemma empty_search_attaches_nothing_and_emits_no_notice_witness :
  let start := handle (StartConnection (Scenario.pull_only "UC") 100 Scenario.nothing_live) in
  let s := state_after (handle Connection) init in
  truthy (Some "UC") = Some "UC" ∧
  result_of (getLiveChatId "UC" Scenario.nothing_live) s = None ∧
  youtubeLiveChatId (state_after start s) = None ∧
  timers (state_after start s) = timers s ∧
  actions_of start s = [YoutubeSearchList "UC"] ∧
  notices (actions_of start s) = [].
Proof.
  intros start s. split; [reflexivity|].
  apply (empty_search_attaches_nothing_and_emits_no_notice s "UC" 100 VideosThrows).
  reflexivity.
Defined.

(** The sibling path: when the search throws, the same request does
    broadcast the notice that no live stream was found. *)
Lemma failed_search_emits_notice s channelId now :
  truthy (Some channelId) = Some channelId →
  notices (actions_of
             (handle (StartConnection (Scenario.pull_only channelId) now
                        Scenario.search_fails)) s) = [not_found_notice].
Proof.
  intros Hc. cbn [handle].
  destruct (start_pull_state (Scenario.pull_only channelId) now
              Scenario.search_fails s channelId Hc) as (_ & _ & Hrest).
  destruct Hrest as [_ ->]; done.
Qed.

(** C10, as amended: a start request that names a pull channel sets the
    watermark to its own time before any interval it arms can fire; the
    poll that follows filters against that time: it forwards no item
    published at or before the start request, and what it forwards are
    the items published after it. *)
Theorem start_sets_watermark_for_next_poll
    (s : Server) (data : StartData) (now : Z) (api : ResolveResult)
    (t : nat) (items : list LiveChatMessage) :
  let s1 := state_after (handle (StartConnection data now api)) s in
  let log := actions_of (handle (IntervalFires t (ListItems items))) s1 in
  is_Some (truthy (data_youtubeChannelId data)) →
  lastYoutubeCheck s1 = Some now ∧
  (∀ item, item ∈ items → publishedAt item ≤ now →
           actions_of (forward_item item) s1 = []) ∧
  (log = [] ∨
   chat_messages log =
     youtubeChatMessage <$> filter (λ item, now < publishedAt item) items).
Proof.
  intros s1 log [channelId Hyt].
  destruct (start_pull_state data now api s channelId Hyt) as (Hw & _ & _).
  change (lastYoutubeCheck s1 = Some now) in Hw.
  split_and!; [done| |].
  - intros item _ Hle. rewrite forward_item_actions, Hw. simpl.
    rewrite bool_decide_false; [done|lia].
  - destruct (interval_cases t (ListItems items) s1) as [H|(c & Ht & Hc & _ & _)].
    + left. subst log. unfold actions_of. by rewrite H.
    + right. subst log.
      by rewrite (poll_chat_messages s1 t items c Ht Hc), Hw, filter_is_new.
Qed.

Lemma start_sets_watermark_for_next_poll_witness :
  let s := state_after (handle Connection) init in
  let items := [Scenario.message "a" 50; Scenario.message "b" 100;
                Scenario.message "c" 150] in
  let s1 := state_after
              (handle (StartConnection (Scenario.pull_only "UC") 100
                         (Scenario.feed_found "chat"))) s in
  let log := actions_of (handle (IntervalFires 0 (ListItems items))) s1 in
  is_Some (truthy (Some "UC")) ∧
  lastYoutubeCheck s1 = Some 100 ∧
  (∀ item, item ∈ items → publishedAt item ≤ 100 →
           actions_of (forward_item item) s1 = []) ∧
  (log = [] ∨
   chat_messages log =
     youtubeChatMessage <$> filter (λ item, 100 < publishedAt item) items).
Proof.
  intros s items s1 log.
  assert (is_Some (truthy (Some "UC"))) as H by (eexists; reflexivity).
  split; [exact H|].
  exact (start_sets_watermark_for_next_poll s (Scenario.pull_only "UC") 100
           (Scenario.feed_found "chat") 0 items H).
Defined.

(** C10 fails as stated: the start request is made at time 100; the
    first poll returns an item of time 50 and moves the watermark back to
    50; the second poll then forwards an item published at 60, before the
    start request. *)
Lemma item_older_than_start_is_forwarded :
  let old := Scenario.message "a" 50 in
  let older_than_start := Scenario.message "b" 60 in
  let s0 := Scenario.polling_since 100 in
  let first := handle (IntervalFires 0 (ListItems [old])) in
  let second := handle (IntervalFires 0 (ListItems [old; older_than_start])) in
  let s1 := state_after first s0 in
  lastYoutubeCheck s0 = Some 100 ∧
  chat_messages (actions_of first s0) = [] ∧
  lastYoutubeCheck s1 = Some 50 ∧
  publishedAt older_than_start ≤ 100 ∧
  chat_messages (actions_of second s1) = [youtubeChatMessage older_than_start] ∧
  ¬ (actions_of (forward_item older_than_start) s1 = []).
Proof. vm_compute. split_and!; try done. Qed.

(** * Further properties of the code *)

(** ** The Twitch callback over a stream of messages *)

(** X1: over any stream of messages from tmi.js the callback leaves the
    state alone and broadcasts exactly the messages not flagged as the
    bot's own, normalized, in the order of arrival. *)
Theorem twitch_messages_forwarded_in_order (s : Server) (l : list TwitchRaw) :
  state_after (run (twitch_event <$> l)) s = s ∧
  actions_of (run (twitch_event <$> l)) s =
    (λ m, IoEmitChat (twitchChatMessage (raw_tags m) (raw_message m))) <$>
      filter (λ m, raw_self m = false) l.
Proof.
  induction l as [|m l [IHs IHa]]; [done|].
  rewrite fmap_cons.
  destruct (run_cons (twitch_event m) (twitch_event <$> l) s) as [-> ->].
  assert (state_after (handle (twitch_event m)) s = s) as ->
    by (unfold twitch_event; simpl; unfold on_twitch_message; by destruct (raw_self m)).
  rewrite IHs, IHa. split; [done|].
  rewrite filter_cons. unfold twitch_event. simpl. unfold on_twitch_message.
  destruct (raw_self m) eqn:Hself.
  - by rewrite decide_False.
  - by rewrite decide_True.
Qed.

(** ** The test for the end of the chat *)

(** X2: the test of line 118 is a substring test: an error with a
    response counts as the end of the chat exactly when the phrase occurs
    at some position of its message; an error without a response never
    does. *)
Theorem chat_has_ended_iff_phrase_occurs (response_message : option string) :
  chat_has_ended response_message = true ↔
  ∃ m i, response_message = Some m ∧
         String.substring i (String.length ended_phrase) m = ended_phrase.
Proof.
  destruct response_message as [m|]; unfold chat_has_ended.
  - unfold includes.
    change (String.index 0 _ m) with (String.index 0 ended_phrase m). split.
    + destruct (String.index 0 ended_phrase m) as [i|] eqn:Hi; [|done].
      intros _. exists m, i. split; [done|]. by eapply String.index_correct1.
    + intros (m' & i & [= <-] & Hsub).
      destruct (String.index 0 ended_phrase m) as [j|] eqn:Hi; [done|].
      exfalso. apply (String.index_correct3 0 i _ _ Hi); [done|lia|done].
  - split; [done|]. by intros (m & i & ? & _).
Qed.

(** ** Polls *)

Lemma fetch_quiet s r c :
  truthy (youtubeLiveChatId s) = Some c →
  (r = ListItems [] ∨ (∃ m, r = ListThrows m ∧ chat_has_ended m = false) ∨
   r = ListThrowsUnreadable) →
  fetchYoutubeMessages r s =
  (match r with ListThrowsUnreadable => Rejected | _ => Fulfilled end,
   s, [YoutubeLiveChatMessagesList c]).
Proof.
  intros Hc Hr.
  destruct (fetch_polls r s c Hc) as (Hres & Hs & Ha).
  unfold result_of, state_after, actions_of in *.
  destruct (fetchYoutubeMessages r s) as [[res s'] log]. simpl in *. subst.
  destruct Hr as [->|[(m & -> & Hm)| ->]].
  - reflexivity.
  - rewrite on_list_throws, Hm. reflexivity.
  - reflexivity.
Qed.

Lemma quiet_poll_step
    (s : Server) (t : nat) (r : ListResult) (c : string) :
  t ∈ timers s → truthy (youtubeLiveChatId s) = Some c →
  (r = ListItems [] ∨ ∃ m, r = ListThrows m ∧ chat_has_ended m = false) →
  handle (IntervalFires t r) s = (tt, s, [YoutubeLiveChatMessagesList c]).
Proof.
  intros Ht Hc Hr. rewrite (interval_armed _ _ _ Ht), tick_eq.
  unfold state_after, actions_of. rewrite (fetch_quiet s r c Hc); [done|].
  destruct Hr as [?|?]; auto.
Qed.

(** X3: a poll that returns no items, or fails with an error that is not
    recognised as the end of the chat, changes nothing: the list call is
    all that happens and the state, the armed intervals included, is as
    before.  The error is swallowed, so that the call settles normally,
    when it has no response or a response whose message lacks the phrase;
    when its response carries no message to read, line 118 throws inside
    the [catch] block and the promise of the call is rejected. *)
Theorem quiet_poll_changes_nothing
    (s : Server) (t : nat) (r : ListResult) (c : string) :
  t ∈ timers s → truthy (youtubeLiveChatId s) = Some c →
  (r = ListItems [] ∨ (∃ m, r = ListThrows m ∧ chat_has_ended m = false) ∨
   r = ListThrowsUnreadable) →
  handle (IntervalFires t r) s = (tt, s, [YoutubeLiveChatMessagesList c]) ∧
  (result_of (fetchYoutubeMessages r) s = Rejected ↔ r = ListThrowsUnreadable).
Proof.
  intros Ht Hc Hr. split.
  - rewrite (interval_armed _ _ _ Ht), tick_eq.
    unfold state_after, actions_of. by rewrite (fetch_quiet s r c Hc Hr).
  - unfold result_of. rewrite (fetch_quiet s r c Hc Hr). simpl.
    destruct r; split; intros H; done.
Qed.

Lemma quiet_poll_changes_nothing_witness :
  let s := Scenario.polling_since 5 in
  (handle (IntervalFires 0 (ListThrows (Some "quotaExceeded"))) s =
     (tt, s, [YoutubeLiveChatMessagesList "chat"]) ∧
   (result_of (fetchYoutubeMessages (ListThrows (Some "quotaExceeded"))) s = Rejected ↔
    ListThrows (Some "quotaExceeded") = ListThrowsUnreadable)) ∧
  (handle (IntervalFires 0 ListThrowsUnreadable) s =
     (tt, s, [YoutubeLiveChatMessagesList "chat"]) ∧
   (result_of (fetchYoutubeMessages ListThrowsUnreadable) s = Rejected ↔
    ListThrowsUnreadable = ListThrowsUnreadable)).
Proof.
  intros s. split.
  - apply (quiet_poll_changes_nothing s 0 (ListThrows (Some "quotaExceeded")) "chat").
    + vm_compute. reflexivity.
    + reflexivity.
    + right. left. eexists. split; reflexivity.
  - apply (quiet_poll_changes_nothing s 0 ListThrowsUnreadable "chat").
    + vm_compute. reflexivity.
    + reflexivity.
    + right. right. reflexivity.
Defined.

Lemma Forall_poll_action_emits (l : list LiveChatMessage) :
  Forall poll_action ((IoEmitChat ∘ youtubeChatMessage) <$> l).
Proof. induction l as [|x l IH]; [constructor|]. rewrite fmap_cons. by constructor. Qed.

Lemma poll_frame (s : Server) (t : nat) (r : ListResult) :
  let s' := state_after (handle (IntervalFires t r)) s in
  twitchChannel s' = twitchChannel s ∧
  clientsCount s' = clientsCount s ∧
  youtubeInterval s' = youtubeInterval s ∧
  nextTimer s' = nextTimer s ∧
  timers s' ⊆ timers s ∧
  Forall poll_action (actions_of (handle (IntervalFires t r)) s).
Proof.
  intros s'. subst s'.
  destruct (interval_cases t r s) as [H|(c & _ & _ & -> & ->)].
  { unfold state_after, actions_of. rewrite H. simpl. by split_and!. }
  destruct r as [items|m|].
  - rewrite on_list_items_state, on_list_items_actions.
    assert (Forall poll_action
              (YoutubeLiveChatMessagesList c ::
               ((IoEmitChat ∘ youtubeChatMessage) <$>
                  List.filter (λ item, is_new (lastYoutubeCheck s) (publishedAt item)) items)))
      by (constructor; [done|apply Forall_poll_action_emits]).
    destruct (last items); by split_and!.
  - unfold state_after, actions_of. rewrite on_list_throws.
    destruct (chat_has_ended m); simpl.
    + destruct (youtubeInterval s) as [h|] eqn:Hh; simpl; rewrite ?Hh;
        split_and!; try done; try (by repeat constructor).
      intros x Hx. by apply elem_of_difference in Hx as [? _].
    + split_and!; try done. by repeat constructor.
  - unfold state_after, actions_of. rewrite on_list_unreadable. simpl.
    split_and!; try done. by repeat constructor.
Qed.

(** X4: whatever a timer tick gets back, it touches the pull state only:
    the Twitch channel, the subscriber count, the interval handle the
    session holds and the next handle are unchanged, no interval is
    armed, and the only calls made are the list call, broadcasts and the
    cancelling of an interval. *)
Theorem poll_touches_only_the_pull_state (s : Server) (t : nat) (r : ListResult) :
  let s' := state_after (handle (IntervalFires t r)) s in
  twitchChannel s' = twitchChannel s ∧
  clientsCount s' = clientsCount s ∧
  youtubeInterval s' = youtubeInterval s ∧
  nextTimer s' = nextTimer s ∧
  timers s' ⊆ timers s ∧
  Forall poll_action (actions_of (handle (IntervalFires t r)) s).
Proof. exact (poll_frame s t r). Qed.

Lemma poll_with_items_state s t items item c :
  t ∈ timers s → truthy (youtubeLiveChatId s) = Some c → last items = Some item →
  state_after (handle (IntervalFires t (ListItems items))) s =
  set_lastYoutubeCheck (Some (publishedAt item)) s.
Proof.
  intros Ht Hc Hlast. unfold state_after. rewrite (interval_armed _ _ _ Ht).
  destruct (tick_polls (ListItems items) s c Hc) as [Hs _].
  unfold state_after in Hs. rewrite Hs.
  pose proof (on_list_items_state items s) as Hi. unfold state_after in Hi.
  by rewrite Hi, Hlast.
Qed.

Lemma next_poll_chat_messages
    (s : Server) (t : nat) (items items' : list LiveChatMessage)
    (item : LiveChatMessage) :
  let s1 := state_after (handle (IntervalFires t (ListItems items))) s in
  t ∈ timers s → is_Some (truthy (youtubeLiveChatId s)) → last items = Some item →
  chat_messages (actions_of (handle (IntervalFires t (ListItems items'))) s1) =
  youtubeChatMessage <$> filter (λ x, publishedAt item < publishedAt x) items'.
Proof.
  intros s1 Ht [c Hc] Hlast. subst s1.
  rewrite (poll_with_items_state s t items item c Ht Hc Hlast).
  rewrite (poll_chat_messages _ t items' c); [|done|done].
  cbn [lastYoutubeCheck set_lastYoutubeCheck]. by rewrite filter_is_new.
Qed.

(** X5: two polls in a row: if the first returns a batch with items, the
    second forwards exactly the items of its own batch that are published
    after the last item of the first batch, in order, whatever the
    watermark was before. *)
Theorem next_poll_filters_against_last_item
    (s : Server) (t : nat) (items items' : list LiveChatMessage)
    (item : LiveChatMessage) :
  let s1 := state_after (handle (IntervalFires t (ListItems items))) s in
  t ∈ timers s → is_Some (truthy (youtubeLiveChatId s)) → last items = Some item →
  chat_messages (actions_of (handle (IntervalFires t (ListItems items'))) s1) =
  youtubeChatMessage <$> filter (λ x, publishedAt item < publishedAt x) items'.
Proof. exact (next_poll_chat_messages s t items items' item). Qed.

Lemma next_poll_filters_against_last_item_witness :
  let s := Scenario.polling_since 5 in
  let items := [Scenario.message "a" 10; Scenario.message "b" 20] in
  let items' := [Scenario.message "b" 20; Scenario.message "c" 30] in
  let s1 := state_after (handle (IntervalFires 0 (ListItems items))) s in
  chat_messages (actions_of (handle (IntervalFires 0 (ListItems items'))) s1) =
  youtubeChatMessage <$> filter (λ x, publishedAt (Scenario.message "b" 20) < publishedAt x) items'.
Proof.
  intros s items items' s1.
  apply (next_poll_filters_against_last_item s 0 items items' (Scenario.message "b" 20)).
  - vm_compute. reflexivity.
  - vm_compute. eexists. reflexivity.
  - reflexivity.
Defined.

(** X6: when a batch is in ascending order of publish time (no item is
    later than its last one), the next poll forwards none of its items
    again: what the next poll forwards comes from items that were not in
    the batch, and the same batch returned once more forwards nothing. *)
Theorem ascending_batch_is_not_forwarded_again
    (s : Server) (t : nat) (items items' : list LiveChatMessage)
    (item : LiveChatMessage) :
  let s1 := state_after (handle (IntervalFires t (ListItems items))) s in
  t ∈ timers s → is_Some (truthy (youtubeLiveChatId s)) → last items = Some item →
  Forall (λ x, publishedAt x ≤ publishedAt item) items →
  (∃ forwarded,
     chat_messages (actions_of (handle (IntervalFires t (ListItems items'))) s1) =
       youtubeChatMessage <$> forwarded ∧
     forwarded ⊆ items' ∧ ∀ x, x ∈ forwarded → x ∉ items) ∧
  chat_messages (actions_of (handle (IntervalFires t (ListItems items))) s1) = [].
Proof.
  intros s1 Ht Hc Hlast Hasc. split.
  - exists (filter (λ x, publishedAt item < publishedAt x) items'). split_and!.
    + by apply next_poll_chat_messages.
    + intros x Hx. by apply list_elem_of_filter in Hx as [_ ?].
    + intros x Hx Hin. apply list_elem_of_filter in Hx as [Hlt _].
      rewrite Forall_forall in Hasc. specialize (Hasc x Hin). lia.
  - subst s1. rewrite (next_poll_chat_messages s t items items item Ht Hc Hlast).
    destruct (filter (λ x, publishedAt item < publishedAt x) items) as [|x l] eqn:Hf;
      [done|].
    assert (x ∈ filter (λ x, publishedAt item < publishedAt x) items) as Hx
      by (rewrite Hf; left).
    apply list_elem_of_filter in Hx as [Hlt Hin].
    rewrite Forall_forall in Hasc. specialize (Hasc x Hin). lia.
Qed.

Lemma ascending_batch_is_not_forwarded_again_witness :
  let s := Scenario.polling_since 5 in
  let items := [Scenario.message "a" 10; Scenario.message "b" 20] in
  let items' := [Scenario.message "b" 20; Scenario.message "c" 30] in
  let s1 := state_after (handle (IntervalFires 0 (ListItems items))) s in
  Forall (λ x, publishedAt x ≤ publishedAt (Scenario.message "b" 20)) items ∧
  (∃ forwarded,
     chat_messages (actions_of (handle (IntervalFires 0 (ListItems items'))) s1) =
       youtubeChatMessage <$> forwarded ∧
     forwarded ⊆ items' ∧ ∀ x, x ∈ forwarded → x ∉ items) ∧
  chat_messages (actions_of (handle (IntervalFires 0 (ListItems items))) s1) = [].
Proof.
  intros s items items' s1.
  assert (Forall (λ x, publishedAt x ≤ publishedAt (Scenario.message "b" 20)) items) as H
    by (repeat constructor; simpl; lia).
  split; [exact H|].
  apply (ascending_batch_is_not_forwarded_again s 0 items items' (Scenario.message "b" 20)).
  - vm_compute. reflexivity.
  - vm_compute. eexists. reflexivity.
  - reflexivity.
  - exact H.
Defined.

(** ** Resolving the feed *)

(** X7: [getLiveChatId] never changes the state.  It broadcasts the
    not-found notice, once, exactly when one of its two API calls throws,
    and then returns [null]; it returns a chat id only when the search
    found a video and the details of the first video found carry one,
    having made just those two calls. *)
Theorem getLiveChatId_outcomes (channelId : string) (api : ResolveResult) (s : Server) :
  let log := actions_of (getLiveChatId channelId api) s in
  let result := result_of (getLiveChatId channelId api) s in
  state_after (getLiveChatId channelId api) s = s ∧
  (resolve_throws api → result = None ∧ notices log = [not_found_notice]) ∧
  (¬ resolve_throws api → notices log = []) ∧
  (∀ c, result = Some c →
        ∃ v l, search_items api = Some (v :: l) ∧
               videos_result api = VideosDetails (Some c) ∧
               log = [YoutubeSearchList channelId; YoutubeVideosList v]).
Proof.
  intros log result. subst log result.
  unfold getLiveChatId, resolve_throws.
  destruct api as [[[|v l]|] [|chat]]; unfold_m; simpl; split_and!; try done.
  - by intros [?|(? & ? & ? & _)].
  - by intros [?|(? & ? & ? & _)].
  - intros Hno. exfalso. apply Hno. right. by exists v, l.
  - by intros [?|(? & ? & _ & ?)].
  - intros c [= ->]. by exists v, l.
  - intros Hno. exfalso. apply Hno. by left.
  - intros Hno. exfalso. apply Hno. by left.
Qed.

(** ** Start requests, continued *)

Lemma start_frame
    (s : Server) (data : StartData) (now : Z) (api : ResolveResult) :
  let s' := state_after (handle (StartConnection data now api)) s in
  timers s ⊆ timers s' ∧
  clientsCount s' = clientsCount s ∧
  Forall (λ a, ¬ detaching_action a) (actions_of (handle (StartConnection data now api)) s).
Proof.
  intros s'. subst s'. cbn [handle]. unfold start_connection, getLiveChatId.
  destruct data as [tw yt]. simpl.
  destruct (truthy tw) as [c|]; destruct (truthy yt) as [channelId|];
    destruct api as [[[|v l]|] [|chat]]; eval_m;
    try (destruct (truthy chat) eqn:Hchat; eval_m);
    split_and!; try done;
    try (intros x Hx; apply elem_of_union; by right);
    repeat constructor; simpl; tauto.
Qed.

(** X8: a start request takes nothing down: it never parts a channel,
    never cancels an interval, leaves every armed interval armed and the
    subscriber count as it is. *)
Theorem start_never_detaches
    (s : Server) (data : StartData) (now : Z) (api : ResolveResult) :
  let s' := state_after (handle (StartConnection data now api)) s in
  timers s ⊆ timers s' ∧
  clientsCount s' = clientsCount s ∧
  Forall (λ a, ¬ detaching_action a) (actions_of (handle (StartConnection data now api)) s).
Proof. exact (start_frame s data now api). Qed.

(** X9: when the feed resolves, the start request stores the chat id,
    sets the watermark to its own time, arms one new interval and keeps
    its handle, and broadcasts no notice; a tick of that interval polls
    the chat that was found. *)
Theorem successful_start_attaches_feed
    (s : Server) (data : StartData) (now : Z) (api : ResolveResult)
    (channelId v c : string) (l : list string) (r : ListResult) :
  let start := handle (StartConnection data now api) in
  let s' := state_after start s in
  truthy (data_youtubeChannelId data) = Some channelId →
  search_items api = Some (v :: l) →
  videos_result api = VideosDetails (Some c) →
  truthy (Some c) = Some c →
  youtubeLiveChatId s' = Some c ∧
  lastYoutubeCheck s' = Some now ∧
  youtubeInterval s' = Some (nextTimer s) ∧
  timers s' = {[nextTimer s]} ∪ timers s ∧
  nextTimer s' = S (nextTimer s) ∧
  notices (actions_of start s) = [] ∧
  polled_feeds (actions_of (handle (IntervalFires (nextTimer s) r)) s') = [c].
Proof.
  intros start s' Hyt Hsearch Hvideos Hc.
  assert (youtubeLiveChatId s' = Some c ∧ lastYoutubeCheck s' = Some now ∧
          youtubeInterval s' = Some (nextTimer s) ∧
          timers s' = {[nextTimer s]} ∪ timers s ∧
          nextTimer s' = S (nextTimer s) ∧
          notices (actions_of start s) = []) as (Hid & Hw & Hh & Ht & Hn & Hlog).
  { subst s' start. cbn [handle]. unfold start_connection, getLiveChatId.
    rewrite Hyt, Hsearch, Hvideos.
    destruct (truthy (data_twitchChannel data)); eval_m;
      rewrite Hc; eval_m; by split_and!. }
  split_and!; try done.
  assert (nextTimer s ∈ timers s') as Harmed
    by (rewrite Ht; apply elem_of_union; left; by apply elem_of_singleton).
  assert (truthy (youtubeLiveChatId s') = Some c) as Hc' by (by rewrite Hid).
  unfold actions_of. rewrite (interval_armed _ _ _ Harmed).
  destruct (tick_polls r s' c Hc') as [_ Ha]. unfold actions_of in Ha. rewrite Ha.
  change (polled_feeds (YoutubeLiveChatMessagesList c :: ?x)) with (c :: polled_feeds x).
  f_equal. destruct r as [items|m|].
  - pose proof (on_list_items_actions items s') as Hl. unfold actions_of in Hl.
    rewrite Hl. generalize (List.filter
      (λ item, is_new (lastYoutubeCheck s') (publishedAt item)) items).
    intros l'. induction l' as [|x l' IH]; [done|]. by rewrite fmap_cons.
  - rewrite on_list_throws. destruct (chat_has_ended m); [|done]. simpl.
    by destruct (youtubeInterval s').
  - done.
Qed.

Lemma successful_start_attaches_feed_witness :
  let s := state_after (handle Connection) init in
  let start := handle (StartConnection (Scenario.pull_only "UC") 100
                         (Scenario.feed_found "chat")) in
  let s' := state_after start s in
  youtubeLiveChatId s' = Some "chat" ∧
  lastYoutubeCheck s' = Some 100 ∧
  youtubeInterval s' = Some (nextTimer s) ∧
  timers s' = {[nextTimer s]} ∪ timers s ∧
  nextTimer s' = S (nextTimer s) ∧
  notices (actions_of start s) = [] ∧
  polled_feeds (actions_of (handle (IntervalFires (nextTimer s) (ListItems []))) s') =
    ["chat"].
Proof.
  intros s start s'.
  apply (successful_start_attaches_feed s (Scenario.pull_only "UC") 100
           (Scenario.feed_found "chat") "UC" "video" "chat" [] (ListItems []));
    reflexivity.
Defined.

Lemma start_pull_keeps_interval data now api s channelId :
  truthy (data_youtubeChannelId data) = Some channelId →
  truthy (result_of (getLiveChatId channelId api) s) = None →
  youtubeInterval (state_after (start_connection data now api) s) = youtubeInterval s.
Proof.
  intros Hyt. unfold start_connection, getLiveChatId. rewrite Hyt.
  destruct (truthy (data_twitchChannel data)) as [c|];
    destruct api as [[[|v l]|] [|chat]]; eval_m; try done;
    intros Hchat; by rewrite Hchat.
Qed.

(** X10: a start request for a pull channel whose feed does not resolve
    switches polling off, also for a feed that was being polled: the
    armed intervals and the held handle stay as they are, but from then
    on a tick does nothing. *)
Theorem unresolved_start_silences_polling
    (s : Server) (data : StartData) (now : Z) (api : ResolveResult)
    (channelId : string) (t : nat) (r : ListResult) :
  let s' := state_after (handle (StartConnection data now api)) s in
  truthy (data_youtubeChannelId data) = Some channelId →
  truthy (result_of (getLiveChatId channelId api) s) = None →
  timers s' = timers s ∧ youtubeInterval s' = youtubeInterval s ∧
  handle (IntervalFires t r) s' = (tt, s', []).
Proof.
  intros s' Hyt Hres. subst s'. cbn [handle].
  destruct (start_pull_state data now api s channelId Hyt) as (_ & Hid & Hrest).
  destruct (Hrest Hres) as [Ht _].
  split_and!; [done|by eapply start_pull_keeps_interval|].
  destruct (interval_cases t r (state_after (start_connection data now api) s))
    as [H|(c & _ & Hc & _)]; [done|].
  rewrite Hid, Hres in Hc. done.
Qed.

Lemma unresolved_start_silences_polling_witness :
  let s := Scenario.polling_since 5 in
  let s' := state_after
              (handle (StartConnection (Scenario.pull_only "UC") 50
                         Scenario.nothing_live)) s in
  timers s' = timers s ∧ youtubeInterval s' = youtubeInterval s ∧
  handle (IntervalFires 0 (ListItems [Scenario.message "a" 60])) s' = (tt, s', []).
Proof.
  intros s s'.
  apply (unresolved_start_silences_polling s (Scenario.pull_only "UC") 50
           Scenario.nothing_live "UC" 0 (ListItems [Scenario.message "a" 60]));
    reflexivity.
Defined.

(** ** Teardown *)

Lemma on_disconnect_leaves s :
  let s' := state_after on_disconnect s in
  clientsCount s' = clientsCount s ∧
  (clientsCount s = 0%nat →
   truthy (twitchChannel s') = None ∧ youtubeInterval s' = None).
Proof.
  intros s'. subst s'. unfold state_after, on_disconnect. rewrite bind_get.
  case_bool_decide as Hcount; [|done].
  destruct (truthy (twitchChannel s)) as [c|] eqn:Hc;
    destruct (youtubeInterval s) as [h|] eqn:Hh;
    eval_m; rewrite ?Hc, ?Hh; eval_m; rewrite ?Hh; eval_m; by split_and!.
Qed.

Lemma on_disconnect_nothing_left s :
  clientsCount s ≠ 0%nat ∨
    (truthy (twitchChannel s) = None ∧ youtubeInterval s = None) →
  on_disconnect s = (tt, s, []).
Proof.
  intros [Hcount|[Hc Hh]]; [by apply on_disconnect_idle|].
  unfold on_disconnect. rewrite bind_get.
  case_bool_decide; [|done]. eval_m. rewrite Hc. eval_m. by rewrite Hh.
Qed.

(** X11: the cleanup of the disconnect handler is idempotent: run on the
    state it leaves, it makes no call and changes nothing. *)
Theorem teardown_is_idempotent (s : Server) :
  let s' := state_after on_disconnect s in
  on_disconnect s' = (tt, s', []).
Proof.
  intros s'. destruct (on_disconnect_leaves s) as [Hcount Hleft].
  apply on_disconnect_nothing_left.
  destruct (decide (clientsCount s = 0%nat)) as [H0|H0].
  - right. by apply Hleft.
  - left. subst s'. by rewrite Hcount.
Qed.

Lemma handle_client_disconnect s : handle ClientDisconnect s = (tt, s, []).
Proof.
  cbn [handle]. rewrite bind_get.
  destruct (clientsCount s) as [|k] eqn:Hcount; [done|].
  apply on_disconnect_idle. by rewrite Hcount.
Qed.

Lemma handle_engine_close s :
  handle EngineClose s =
  match clientsCount s with
  | O => (tt, s, [])
  | S k => (tt, set_clientsCount k s, [])
  end.
Proof. cbn [handle]. rewrite bind_get. by destruct (clientsCount s). Qed.

(** What the cleanup can do: part the stored channel, cancel the held
    interval; every other interval stays armed. *)
Lemma on_disconnect_frame s :
  let s' := state_after on_disconnect s in
  nextTimer s' = nextTimer s ∧
  (youtubeInterval s' = youtubeInterval s ∨ youtubeInterval s' = None) ∧
  timers s' ⊆ timers s ∧
  (∀ t, t ∈ timers s → youtubeInterval s ≠ Some t → t ∈ timers s') ∧
  (∀ a, a ∈ actions_of on_disconnect s →
        (∃ c, truthy (twitchChannel s) = Some c ∧ a = TwitchPart c) ∨
        (∃ h, youtubeInterval s = Some h ∧ a = ClearInterval h)).
Proof.
  intros s'. subst s'. unfold state_after, actions_of, on_disconnect.
  rewrite bind_get. case_bool_decide as Hcount.
  - destruct (truthy (twitchChannel s)) as [c|] eqn:Hc;
      destruct (youtubeInterval s) as [h|] eqn:Hh;
      eval_m; rewrite ?Hc, ?Hh; eval_m; rewrite ?Hh; eval_m;
      split_and!; auto;
      try (intros t Ht; by apply elem_of_difference in Ht as [? _]);
      try (intros t Ht Hne; apply elem_of_difference; split; [done|];
           rewrite elem_of_singleton; congruence);
      intros a Ha;
      repeat (apply elem_of_cons in Ha as [->|Ha]; [eauto|]);
      by apply elem_of_nil in Ha.
  - cbn [fst snd]. split_and!; auto. intros a Ha. by apply elem_of_nil in Ha.
Qed.

(** The actions of one event that part a channel part the stored one. *)
Lemma parts_stored_channel e s c :
  TwitchPart c ∈ actions_of (handle e) s → truthy (twitchChannel s) = Some c.
Proof.
  destruct e as [|data now api|channel tags message self|t r| | |].
  - intros H. by apply elem_of_nil in H.
  - intros H. destruct (start_frame s data now api) as (_ & _ & Hall).
    rewrite Forall_forall in Hall. by destruct (Hall _ H).
  - unfold actions_of. cbn [handle]. unfold on_twitch_message.
    destruct self; intros H; [by apply elem_of_nil in H|].
    apply elem_of_cons in H as [?|H]; [done|]. by apply elem_of_nil in H.
  - intros H. destruct (poll_frame s t r) as (_ & _ & _ & _ & _ & Hall).
    rewrite Forall_forall in Hall. by destruct (Hall _ H).
  - unfold actions_of. rewrite handle_disconnect.
    destruct (clientsCount s) as [|k]; [intros H; by apply elem_of_nil in H|].
    intros H.
    destruct (on_disconnect_frame (set_clientsCount k s)) as (_ & _ & _ & _ & Hact).
    destruct (Hact _ H) as [(c' & Hc' & [= ->])|(h & _ & ?)]; done.
  - unfold actions_of. rewrite handle_client_disconnect.
    intros H. by apply elem_of_nil in H.
  - unfold actions_of. rewrite handle_engine_close.
    destruct (clientsCount s); intros H; by apply elem_of_nil in H.
Qed.

(** X12: naming another push channel does not part the one joined
    before: the request only connects and joins the new channel and
    overwrites the stored one, so that whatever event comes next, a
    disconnect of either kind included, the channel joined before is not
    parted. *)
Theorem switching_push_channel_never_parts_old
    (s : Server) (old new : string) (now : Z) (api : ResolveResult) :
  let start := handle (StartConnection (Scenario.push_only new) now api) in
  let s1 := state_after start s in
  twitchChannel s = Some old → truthy (Some new) = Some new → old ≠ new →
  actions_of start s = [TwitchConnect; TwitchJoin new] ∧
  twitchChannel s1 = Some new ∧
  ∀ e, TwitchPart old ∉ actions_of (handle e) s1.
Proof.
  intros start s1 Hold Hnew Hne.
  assert (start s = (tt, set_twitchChannel (Some new) s, [TwitchConnect; TwitchJoin new]))
    as Hstart.
  { subst start. cbn [handle]. unfold start_connection.
    cbn [Scenario.push_only data_twitchChannel data_youtubeChannelId].
    by rewrite Hnew. }
  assert (s1 = set_twitchChannel (Some new) s) as Hs1
    by (subst s1; unfold state_after; by rewrite Hstart).
  split_and!.
  - unfold actions_of. by rewrite Hstart.
  - by rewrite Hs1.
  - intros e Hin. apply parts_stored_channel in Hin.
    rewrite Hs1 in Hin. cbn [twitchChannel set_twitchChannel] in Hin.
    rewrite Hnew in Hin. congruence.
Qed.

Lemma switching_push_channel_never_parts_old_witness :
  let s := state_after
             (run [Connection;
                   StartConnection (Scenario.push_only "abc") 0 Scenario.nothing_live])
             init in
  let start := handle (StartConnection (Scenario.push_only "xyz") 5 Scenario.nothing_live) in
  let s1 := state_after start s in
  actions_of start s = [TwitchConnect; TwitchJoin "xyz"] ∧
  twitchChannel s1 = Some "xyz" ∧
  ∀ e, TwitchPart "abc" ∉ actions_of (handle e) s1.
Proof.
  intros s start s1.
  apply (switching_push_channel_never_parts_old s "abc" "xyz" 5 Scenario.nothing_live);
    try reflexivity.
  discriminate.
Defined.

(** ** Invariants of the session *)

(** X13: whatever events the server has handled, a usable feed handle
    never stands alone: a watermark and an interval handle are stored
    with it; and a stored Twitch channel is never the empty string. *)
Theorem session_invariant (events : list Event) :
  let s := state_after (run events) init in
  (∀ c, truthy (youtubeLiveChatId s) = Some c →
        ∃ w h, lastYoutubeCheck s = Some w ∧ youtubeInterval s = Some h) ∧
  (∀ c, twitchChannel s = Some c → c ≠ "").
Proof.
  intros s.
  assert (invariant s) as [Hw Hi Ht] by (apply reachable_invariant; by eexists).
  split.
  - intros c Hc.
    destruct Hw as [w Hw]; [by rewrite Hc|].
    destruct Hi as [h Hi]; [by rewrite Hc|]. by exists w, h.
  - intros c Hc ->. specialize (Ht _ Hc). done.
Qed.

Lemma handle_timers_fresh e s : timers_fresh s → timers_fresh (state_after (handle e) s).
Proof.
  intros [Ha Hh]. destruct e as [|data now api|channel tags message self|t r| | |].
  - by split.
  - cbn [handle]. unfold start_connection, getLiveChatId.
    destruct data as [tw yt]. simpl.
    destruct (truthy tw) as [c|]; destruct (truthy yt) as [channelId|];
      destruct api as [[[|v l]|] [|chat]]; eval_m;
      try (destruct (truthy chat) eqn:Hchat; eval_m);
      split; cbn; try done;
      try (intros t Ht; apply elem_of_union in Ht as [Ht|Ht];
           [apply elem_of_singleton in Ht; lia|specialize (Ha t Ht); lia]);
      try (intros h [= <-]; lia).
  - simpl. unfold on_twitch_message. by destruct self.
  - destruct (poll_frame s t r) as (_ & _ & Hi & Hn & Hsub & _).
    split.
    + intros t' Ht'. rewrite Hn. apply Ha. by apply Hsub.
    + intros h. rewrite Hi, Hn. apply Hh.
  - unfold state_after. rewrite handle_disconnect.
    destruct (clientsCount s) as [|k]; [by split|].
    unfold on_disconnect. unfold_m. simpl.
    case_bool_decide; [|by split]. simpl.
    destruct (truthy (twitchChannel s)); simpl;
      destruct (youtubeInterval s) as [h|] eqn:Heq; simpl;
      split; simpl; rewrite ?Heq; try done;
      intros t Ht; apply elem_of_difference in Ht as [Ht _]; by apply Ha.
  - unfold state_after. rewrite handle_client_disconnect. by split.
  - unfold state_after. rewrite handle_engine_close.
    by destruct (clientsCount s); split.
Qed.

Lemma run_timers_fresh events s :
  timers_fresh s → timers_fresh (state_after (run events) s).
Proof.
  revert s. induction events as [|e events IH]; intros s H; [done|].
  destruct (run_cons e events s) as [-> _]. by apply IH, handle_timers_fresh.
Qed.

Lemma init_timers_fresh : timers_fresh init.
Proof. split; simpl; [|done]. intros t Ht. by apply elem_of_empty in Ht. Qed.

Lemma handle_orphaned e s h :
  timers_fresh s → orphaned h s → orphaned h (state_after (handle e) s).
Proof.
  intros [Ha Hh] [Hin Hne]. pose proof (Ha h Hin) as Hlt.
  destruct e as [|data now api|channel tags message self|t r| | |].
  - by split.
  - cbn [handle]. unfold start_connection, getLiveChatId.
    destruct data as [tw yt]. simpl.
    destruct (truthy tw) as [c|]; destruct (truthy yt) as [channelId|];
      destruct api as [[[|v l]|] [|chat]]; eval_m;
      try (destruct (truthy chat) eqn:Hchat; eval_m);
      split; cbn; try done;
      try (apply elem_of_union; by right);
      intros [= ?]; lia.
  - simpl. unfold on_twitch_message. by destruct self.
  - destruct (poll_frame s t r) as (_ & _ & Hi & _ & _ & _).
    split; [|by rewrite Hi].
    destruct (interval_cases t r s) as [H|(c & _ & _ & -> & _)].
    { unfold state_after. by rewrite H. }
    destruct r as [items|m|].
    + rewrite on_list_items_state. by destruct (last items).
    + unfold state_after. rewrite on_list_throws.
      destruct (chat_has_ended m); [|done]. cbn [fst snd].
      destruct (youtubeInterval s) as [x|] eqn:Hx; cbn; [|done].
      apply elem_of_difference. split; [done|].
      rewrite elem_of_singleton. congruence.
    + done.
  - unfold state_after. rewrite handle_disconnect.
    destruct (clientsCount s) as [|k]; [by split|].
    destruct (on_disconnect_frame (set_clientsCount k s)) as (_ & Hi & _ & Hkeep & _).
    split.
    + by apply Hkeep.
    + destruct Hi as [Hi|Hi]; unfold state_after in Hi; rewrite Hi; done.
  - unfold state_after. rewrite handle_client_disconnect. by split.
  - unfold state_after. rewrite handle_engine_close.
    by destruct (clientsCount s); split.
Qed.

Lemma run_orphaned events s h :
  timers_fresh s → orphaned h s → orphaned h (state_after (run events) s).
Proof.
  revert s. induction events as [|e events IH]; intros s Hfresh Horphan; [done|].
  destruct (run_cons e events s) as [-> _].
  apply IH; [by apply handle_timers_fresh|by apply handle_orphaned].
Qed.

(** X14: a second start request for a pull channel, made while an
    interval is armed and held, arms a new interval without cancelling
    the old one and forgets the old handle.  From then on both intervals
    poll the chat that was found, and nothing that happens later cancels
    the old interval: it stays armed through every further event,
    disconnects of either kind included. *)
Theorem second_pull_start_leaks_interval
    (events : list Event) (data : StartData) (now : Z) (api : ResolveResult)
    (channelId v c : string) (l : list string) (h : nat) :
  let s := state_after (run events) init in
  let s1 := state_after (handle (StartConnection data now api)) s in
  youtubeInterval s = Some h → h ∈ timers s →
  truthy (data_youtubeChannelId data) = Some channelId →
  search_items api = Some (v :: l) →
  videos_result api = VideosDetails (Some c) →
  truthy (Some c) = Some c →
  ∃ h', h' ≠ h ∧ youtubeInterval s1 = Some h' ∧ h ∈ timers s1 ∧ h' ∈ timers s1 ∧
        (∀ r, polled_feeds (actions_of (handle (IntervalFires h r)) s1) =
              polled_feeds (actions_of (handle (IntervalFires h' r)) s1)) ∧
        polled_feeds (actions_of (handle (IntervalFires h (ListItems []))) s1) = [c] ∧
        ∀ later, h ∈ timers (state_after (run later) s1).
Proof.
  intros s s1 Hheld Harmed Hyt Hsearch Hvideos Hc.
  assert (timers_fresh s) as Hfresh
    by (apply run_timers_fresh, init_timers_fresh).
  pose proof (fresh_armed s Hfresh h Harmed) as Hlt.
  assert (youtubeLiveChatId s1 = Some c ∧ youtubeInterval s1 = Some (nextTimer s) ∧
          timers s1 = {[nextTimer s]} ∪ timers s)
    as (Hid & Hh & Ht).
  { subst s1. cbn [handle]. unfold start_connection, getLiveChatId.
    rewrite Hyt, Hsearch, Hvideos.
    destruct (truthy (data_twitchChannel data)); eval_m;
      rewrite Hc; eval_m; by split_and!. }
  assert (h ∈ timers s1) as Hin by (rewrite Ht; apply elem_of_union; by right).
  assert (nextTimer s ∈ timers s1) as Hin'
    by (rewrite Ht; apply elem_of_union; left; by apply elem_of_singleton).
  assert (truthy (youtubeLiveChatId s1) = Some c) as Hc1 by (by rewrite Hid).
  exists (nextTimer s). split_and!; try done.
  - lia.
  - intros r. unfold actions_of.
    by rewrite (interval_armed _ _ _ Hin), (interval_armed _ _ _ Hin').
  - unfold actions_of.
    by rewrite (quiet_poll_step s1 h (ListItems []) c Hin Hc1 (or_introl eq_refl)).
  - intros later.
    assert (orphaned h s1) as Horphan.
    { split; [done|]. rewrite Hh. intros [= ?]. lia. }
    assert (timers_fresh s1) as Hfresh1
      by (subst s1; by apply handle_timers_fresh).
    by destruct (run_orphaned later s1 h Hfresh1 Horphan).
Qed.

Lemma second_pull_start_leaks_interval_witness :
  let events := [Connection;
                 StartConnection (Scenario.pull_only "UC") 5 (Scenario.feed_found "chat")] in
  let s := state_after (run events) init in
  let s1 := state_after
              (handle (StartConnection (Scenario.pull_only "UC") 50
                         (Scenario.feed_found "chat2"))) s in
  ∃ h', h' ≠ 0%nat ∧ youtubeInterval s1 = Some h' ∧ 0%nat ∈ timers s1 ∧ h' ∈ timers s1 ∧
        (∀ r, polled_feeds (actions_of (handle (IntervalFires 0 r)) s1) =
              polled_feeds (actions_of (handle (IntervalFires h' r)) s1)) ∧
        polled_feeds (actions_of (handle (IntervalFires 0 (ListItems []))) s1) = ["chat2"] ∧
        ∀ later, 0%nat ∈ timers (state_after (run later) s1).
Proof.
  intros events s s1.
  apply (second_pull_start_leaks_interval events (Scenario.pull_only "UC") 50
           (Scenario.feed_found "chat2") "UC" "video" "chat2" [] 0).
  - reflexivity.
  - vm_compute. reflexivity.
  - reflexivity.
  - reflexivity.
  - reflexivity.
  - reflexivity.
Defined.

(** X15: nothing is cached between start requests: every start request
    that names a pull channel searches for the live video of that
    channel again, whatever feed the session is polling, and the search
    is the first call it makes for the pull source. *)
Theorem pull_start_always_resolves_again
    (s : Server) (data : StartData) (now : Z) (api : ResolveResult)
    (channelId : string) :
  truthy (data_youtubeChannelId data) = Some channelId →
  ∃ rest,
    actions_of (handle (StartConnection data now api)) s =
      match truthy (data_twitchChannel data) with
      | Some c => [TwitchConnect; TwitchJoin c]
      | None => []
      end ++ YoutubeSearchList channelId :: rest ∧
    Forall (λ a, ∀ c, a ≠ TwitchJoin c ∧ a ≠ YoutubeSearchList c) rest.
Proof.
  intros Hyt. cbn [handle]. unfold start_connection, getLiveChatId. rewrite Hyt.
  destruct (truthy (data_twitchChannel data)) as [c|];
    destruct api as [[[|v l]|] [|chat]]; eval_m;
    try (destruct (truthy chat) eqn:Hchat; eval_m);
    eexists; (split; [reflexivity|]); repeat constructor; done.
Qed.

Lemma pull_start_always_resolves_again_witness :
  let s := Scenario.polling_since 5 in
  let data := Scenario.pull_only "UC" in
  ∃ rest,
    actions_of (handle (StartConnection data 50 (Scenario.feed_found "chat"))) s =
      match truthy (data_twitchChannel data) with
      | Some c => [TwitchConnect; TwitchJoin c]
      | None => []
      end ++ YoutubeSearchList "UC" :: rest ∧
    Forall (λ a, ∀ c, a ≠ TwitchJoin c ∧ a ≠ YoutubeSearchList c) rest.
Proof.
  intros s data.
  apply (pull_start_always_resolves_again s data 50 (Scenario.feed_found "chat") "UC").
  reflexivity.
Defined.
